(* ===== verification/_CoqProject ===== *)
-Q . S2P
Prelude.v
Uuid.v
Task.v
Store.v
Spec.v
Json.v
Serde.v
Interact.v
