(* ===== verification/Prelude.v ===== *)
(** * task_wrangler: a verification development of src/src/main.rs

    The program is a one-file Rust command-line task manager.  Its parts:

    - the Identifier Service: [uuid::Uuid::new_v4] (a library call) gives
      every new task a random version-4 UUID;
    - the Task Store: [struct Tasks(Vec<Task>)] and its [impl Tasks]
      methods ([get_from_id], [get_from_id_mut], [get_index_from_id],
      [remove_task_from_subtasks], [remove_task], [display],
      [check_if_subtasks_done], [mark_task_toggle], [add_task],
      [make_subtask], [add_subtask]);
    - the Persistence Adapter: [save] and [load], which write and read
      [tasks.json] with [serde_json::to_string_pretty] and
      [serde_json::from_reader] through the code [#[derive(Serialize,
      Deserialize)]] generates for [Status], [Task] and [Tasks];
    - the Interaction Layer: [main]'s loop, [menu], [select], [confirm],
      [pause] and the handlers [add_task], [add_subtask], [make_subtask],
      [toggle_task], [remove_task], which read stdin and call the store.

    Control flow: [main] loads the store, then loops: [menu] reads an
    action, the handler reads its arguments from stdin and calls one store
    method, and [save] rewrites [tasks.json]; [Quit] saves and returns.

    ** Files of the development (in dependency order)

    - [Prelude.v] (this file): the [outcome] type of computations that
      may panic (Rust's [unwrap] and [expect]), its bind notation in
      [tw_scope], [vec_retain] (Rust's [Vec::retain], whose closure sees
      each element's original slot), the hint databases [tw] and [tw_rw],
      the tactic [by_eval] and generic list and string lemmas.
    - [Uuid.v]: [Uuid] as its 128-bit big-endian value in [Z], its
      decidable equality and countability; [new_v4] from 16 random bytes
      (version and variant bits written with [Z.land]/[Z.lor]); the
      hyphenated lower-case text form ([encode_lower]) and [parse_str].
      Theorems: the byte split/combine round trips, [new_v4_spec] (a
      well-formed version-4 RFC 4122 id) and [parse_str_encode_lower].
    - [Task.v]: [Status] and [Task] as in the source.
    - [Store.v]: module [Tasks], one definition per method of
      [impl Tasks]; the address model of the raw-pointer comparisons in
      [remove_task] ([loc], [addr_eq]); the store as a labelled state
      machine: a label [cmd] is what one iteration of [main]'s loop asks
      of the store (the typed name and description, the selected slots in
      the order the handler reads them, the answer of [confirm]), and
      [lstep ts c ts'] is the store update of the handler for [c]
      ([lsteps] for a sequence, [step] for any label); the behaviour of
      each method on every branch, including [unwrap]'s panics;
      invariants by rule induction ([reachable_ids_unique],
      [self_linked_todo_stuck]); the panic of the gate on a dangling id
      ([check_if_subtasks_done_spec]), the dangling references deletion
      leaves ([delete_leaves_dangling]), the text of [display] with its
      header repeated before every subtask ([display_repeats_header]).
    - [Spec.v]: the contract of the store in the specification (section
      4.2) as an abstract store (ids in order and a [gmap] from ids to
      tasks) with its operations and the labelled relation [a_step]
      (labels [alabel]: the ids the caller passes); the abstraction [abs]
      of a concrete store and [label_of], the contract request a command
      makes; the refinement theorems: every labelled store step is the
      contract step of its request except a confirmed delete of a task
      still listed ([step_refines]), the toggle gate agrees with the
      contract ([toggle_refines]), and delete implements the contract
      exactly when nothing lists the task ([remove_task_refines_iff]).
    - [Json.v]: the part of serde_json the program uses: the [json]
      value, the pretty printer and the parser (fuel [2 * length + 1]),
      and the theorem that the parser reads back every number-free
      printed value ([from_str_pretty]); [req] is the fuel a value needs
      and [req_le_length] shows the bound is enough.
    - [Serde.v]: the per-type contract of serde as the classes
      [Serialize], [Deserialize], [Valid] and [SerdeLaws]; the instances
      for [String], [Uuid], [Vec], [Status] and [Task] as serde_derive
      generates them; the document round trip proved against the
      interface only; duplicate and missing fields are rejected
      ([Task_deserialize_fields]).
    - [Interact.v]: the rest of [main.rs] in a [world] (stdin bytes,
      stdout text, [tasks.json], writability, random draws) through the
      state-and-panic monad [io]; a weakest-precondition logic [wp] for
      it; [decode] and [script], which read the typed lines as the
      commands they ask for, the way [menu], [select], [confirm] and the
      handlers read them; each handler proved to read exactly the lines
      [decode] reads and to move the store by the labelled step of that
      command ([handler_spec]); the loop's refinement: a run that quits
      saved the store that the decoded script of commands leads to
      ([main_refines]); termination ([main_terminates]); persistence
      ([save_load_roundtrip], [corrupt_file_replaced],
      [load_missing_file]); the handlers on typed input
      ([toggle_task_selected], [remove_task_selected],
      [select_out_of_range_panics], [menu_spec]); new ids
      ([add_task_new_id]).

    ** Bounds and fuel

    [main_loop] takes one unit of fuel per iteration; every iteration
    consumes a line of stdin or panics at end of input, so fuel above the
    byte length of stdin is enough ([main_terminates]).  [parse_value] takes fuel
    [2 * length + 1]; [req v <= S (length (to_pretty n v))] shows it is
    enough for every printed value.  [usize] is 64 bits: [parse_usize]
    fails above [2^64 - 1].  Random draws are assumed fresh only below a
    bound [B] with [w_draws + fuel <= B]: a run takes at most one draw per
    iteration, and finitely many distinct version-4 ids exist.

    ** What is not modelled, and why
    - The UTF-8 validity of strings: a Rust [String] is a byte string
      here ([string], a list of 8-bit [ascii]); [trim] knows only the
      one-byte whitespace characters.
    - I/O errors of stdin and of [write_all] after a successful
      [File::create] (they only turn into panics).
    - The 128-level recursion limit of serde_json (documents of
      [tasks.json] have depth 3).
    - Text written to the terminal is kept as a string; terminal
      control is not. *)
From stdpp Require Import base list strings sets.
From Stdlib Require Import ZArith Lia.

(** ** Panics and the [outcome] of a computation that may panic *)

(** Why a Rust computation aborted: [Option::unwrap] on [None], the
    [unwrap] of a failed [str::parse::<usize>], or [Result::expect] on
    an I/O error (carrying its message). *)
Inductive panic :=
| UnwrapNone
| ParseIntFailed
| ExpectFailed (msg : string).

Inductive outcome (A : Type) : Type :=
| Ok (a : A)
| Panic (p : panic).
Arguments Ok {A} a.
Arguments Panic {A} p.

Definition outcome_bind {A B} (m : outcome A) (k : A -> outcome B) : outcome B :=
  match m with
  | Ok a => k a
  | Panic p => Panic p
  end.

Declare Scope tw_scope.
Delimit Scope tw_scope with tw.
Notation "x <-! m ; k" := (outcome_bind m (fun x => k))
  (at level 100, m at next level, right associativity) : tw_scope.

(** [Option::unwrap]. *)
Definition unwrap {A} (o : option A) : outcome A :=
  match o with
  | Some a => Ok a
  | None => Panic UnwrapNone
  end.

(** [Option::unwrap_or]. *)
Definition unwrap_or {A} (d : A) (o : option A) : A :=
  match o with
  | Some a => a
  | None => d
  end.

(** ** Text written to stdout *)

(** The line feed [println!] appends. *)
Definition newline : string := String (Ascii.ascii_of_nat 10) EmptyString.

(** [println!("{}", s)] writes [s] and a line feed. *)
Definition println (s : string) : string := (s ++ newline)%string.

(** ** [Vec::retain]

    [Vec::retain f] calls [f] on every element in place, in order, at its
    original slot (the standard library checks an element before moving
    it down), and keeps the elements on which [f] is true.  The closure
    receives the slot number [k] so that a predicate on the element's
    address can be expressed. *)
Fixpoint vec_retain_from {A} (f : nat -> A -> bool) (k : nat) (l : list A) : list A :=
  match l with
  | [] => []
  | x :: l' =>
      if f k x then x :: vec_retain_from f (S k) l' else vec_retain_from f (S k) l'
  end.

Definition vec_retain {A} (f : nat -> A -> bool) (l : list A) : list A :=
  vec_retain_from f 0 l.

(** ** Tactics *)

(** Prove a decidable proposition about concrete data by evaluating its
    [Decision] instance. *)
Ltac by_eval :=
  match goal with
  | |- ?P => refine (bool_decide_unpack P _); vm_compute; exact I
  end.

(** ** Generic lemmas *)

Create HintDb tw discriminated.
Create Rewrite HintDb tw_rw.

Section Generic.
Context {A : Type}.

Lemma outcome_bind_Ok {B} (m : outcome A) (k : A -> outcome B) b :
  outcome_bind m k = Ok b <-> exists a, m = Ok a /\ k a = Ok b.
Proof. destruct m; simpl; split; naive_solver. Qed.

Lemma unwrap_Ok (o : option A) a : unwrap o = Ok a <-> o = Some a.
Proof. destruct o; simpl; split; congruence. Qed.

Lemma unwrap_Panic (o : option A) p : unwrap o = Panic p <-> o = None /\ p = UnwrapNone.
Proof. destruct o; simpl; split; naive_solver. Qed.

Lemma vec_retain_from_all (f : nat -> A -> bool) k l :
  (forall j x, k <= j -> f j x = true) -> vec_retain_from f k l = l.
Proof.
  revert k. induction l as [|x l IH]; intros k Hf; simpl; [done|].
  rewrite Hf by lia. f_equal. apply IH. intros j y ?. apply Hf. lia.
Qed.

Lemma vec_retain_all (f : nat -> A -> bool) l :
  (forall j x, f j x = true) -> vec_retain f l = l.
Proof. intros Hf. apply vec_retain_from_all. auto. Qed.

Lemma vec_retain_from_ext (f g : nat -> A -> bool) k l :
  (forall j x, f j x = g j x) -> vec_retain_from f k l = vec_retain_from g k l.
Proof. intros Hfg. revert k. induction l; intros k; simpl; [done|]. by rewrite Hfg, IHl. Qed.

Lemma vec_retain_ext (f g : nat -> A -> bool) l :
  (forall j x, f j x = g j x) -> vec_retain f l = vec_retain g l.
Proof. apply vec_retain_from_ext. Qed.

(** Dropping exactly the element at slot [i] is stdpp's [delete]. *)
Lemma vec_retain_from_delete (l : list A) k i :
  vec_retain_from (fun j _ => negb (bool_decide (j = k + i))) k l = delete i l.
Proof.
  revert k i. induction l as [|x l IH]; intros k i; simpl; [done|].
  destruct i as [|i]; simpl.
  - rewrite bool_decide_true by lia; simpl.
    apply vec_retain_from_all. intros j _ ?. rewrite bool_decide_false by lia. done.
  - rewrite bool_decide_false by lia; simpl. f_equal.
    replace (k + S i) with (S k + i) by lia. apply IH.
Qed.

Lemma vec_retain_delete (l : list A) i :
  vec_retain (fun j _ => negb (bool_decide (j = i))) l = delete i l.
Proof. apply (vec_retain_from_delete l 0 i). Qed.
Lemma NoDup_snoc (l : list A) x : NoDup l -> x ∉ l -> NoDup (l ++ [x]).
Proof.
  intros Hl Hx. apply NoDup_app. split_and!; [done| |apply NoDup_singleton].
  intros y Hy ->%list_elem_of_singleton. contradiction.
Qed.

(** An element of [l] survives [delete k] unless it sat at slot [k]. *)
Lemma elem_of_delete_cases (l : list A) k x : x ∈ l -> x ∈ delete k l \/ l !! k = Some x.
Proof.
  revert k. induction l as [|y l IH]; intros k Hx; [set_solver|].
  apply elem_of_cons in Hx as [->|Hx]; destruct k as [|k]; simpl.
  - by right.
  - left. apply elem_of_cons. by left.
  - left. done.
  - destruct (IH k Hx) as [?|?]; [left; by apply elem_of_cons; right|by right].
Qed.

(** Without duplicates, the element at slot [k] is gone after [delete k]. *)
Lemma NoDup_delete_lookup (l : list A) k x : NoDup l -> l !! k = Some x -> x ∉ delete k l.
Proof.
  revert k. induction l as [|y l IH]; intros k Hnd Hk; [done|].
  apply NoDup_cons in Hnd as [Hy Hnd]. destruct k as [|k]; simpl in *.
  - by simplify_eq.
  - intros [->|?]%elem_of_cons; [apply Hy; by eapply list_elem_of_lookup_2|by eapply IH].
Qed.

Lemma list_filter_id (P : A -> Prop) `{!forall x, Decision (P x)} (l : list A) : Forall P l -> filter P l = l.
Proof. induction 1; [done|]. rewrite filter_cons_True by done. by f_equal. Qed.

Lemma list_filter_id_elem (P : A -> Prop) `{!forall x, Decision (P x)} (l : list A) x :
  filter P l = l -> x ∈ l -> P x.
Proof.
  intros Hf Hx. destruct (decide (P x)) as [|HP]; [done|].
  pose proof (length_filter_lt P l x Hx HP). rewrite Hf in *. lia.
Qed.

(** Without duplicates, deleting the slot of [x] is filtering [x] out. *)
Lemma NoDup_delete_filter `{!EqDecision A} (l : list A) k x :
  NoDup l -> l !! k = Some x -> delete k l = filter (fun y => y <> x) l.
Proof.
  revert k. induction l as [|y l IH]; intros k Hnd Hk; [done|].
  apply NoDup_cons in Hnd as [Hy Hnd]. destruct k as [|k]; simpl in Hk.
  - simplify_eq. rewrite filter_cons_False by auto. simpl. symmetry.
    apply list_filter_id, Forall_forall. intros z Hz ->. contradiction.
  - rewrite filter_cons_True; [simpl; f_equal; by apply IH|].
    intros ->. apply Hy. by eapply list_elem_of_lookup_2.
Qed.
End Generic.

Section Strings.
Implicit Types (a b c : string).

(** stdpp does not let [simpl] unfold [String.append]: the steps go by
    conversion. *)
Lemma string_app_assoc a b c : ((a ++ b) ++ c)%string = (a ++ (b ++ c))%string.
Proof. induction a as [|x a IH]; [reflexivity|exact (f_equal (String x) IH)]. Qed.

Lemma string_app_nil_r a : (a ++ "")%string = a.
Proof. induction a as [|x a IH]; [reflexivity|exact (f_equal (String x) IH)]. Qed.

Lemma string_length_app a b : String.length (a ++ b) = String.length a + String.length b.
Proof. induction a as [|x a IH]; [reflexivity|exact (f_equal S IH)]. Qed.
Lemma string_app_cons (x : Ascii.ascii) a b : (String x a ++ b)%string = String x (a ++ b).
Proof. reflexivity. Qed.

Lemma string_app_nil_l a : ("" ++ a)%string = a.
Proof. reflexivity. Qed.
End Strings.

#[export] Hint Rewrite string_app_assoc string_app_nil_r string_length_app : tw_rw.
