(* ===== verification/Uuid.v ===== *)
(** * The Identifier Service: [uuid::Uuid] and [Uuid::new_v4]

    A [Uuid] is 16 bytes; the program only creates them with
    [Uuid::new_v4], compares them with [==] and serializes them.  It is
    kept here as its 128-bit big-endian value ([Uuid::as_u128]), an
    integer [Z] with the bound [0 <= _ < 2^128] as a well-formedness
    predicate.  [new_v4] is the uuid crate's
    [Builder::from_random_bytes]: the 16 random bytes, then
    [with_variant(RFC4122)] (byte 8 := byte 8 & 0x3f | 0x80) and
    [with_version(Random)] (byte 6 := byte 6 & 0x0f | 0x40), then
    [from_bytes] (big-endian). *)
From S2P Require Import Prelude.
From stdpp Require Import base list countable strings.
From Stdlib Require Import ZArith Lia.
From Stdlib Require Import Ascii.
From Stdlib Require String.

Open Scope Z_scope.

Record Uuid := Uuid_from_u128 { as_u128 : Z }.

#[export] Instance Uuid_eq_dec : EqDecision Uuid.
Proof. solve_decision. Defined.

#[export] Instance Uuid_countable : Countable Uuid.
Proof. apply (inj_countable' as_u128 Uuid_from_u128). by intros []. Defined.

(** A [Uuid] value fits in 128 bits. *)
Definition uuid_wf (u : Uuid) : Prop := 0 <= as_u128 u < 2 ^ 128.

#[export] Instance uuid_wf_dec u : Decision (uuid_wf u).
Proof. unfold uuid_wf. apply _. Defined.

(** A byte is an integer in [0, 256). *)
Definition byte_wf (b : Z) : Prop := 0 <= b < 256.

(** [Uuid::from_bytes] followed by [as_u128]: the bytes read big-endian. *)
Definition be_combine (bs : list Z) : Z :=
  fold_left (fun acc b => Z.lor (Z.shiftl acc 8) b) bs 0.

Definition from_bytes (bs : list Z) : Uuid := Uuid_from_u128 (be_combine bs).

(** [Builder::with_variant(Variant::RFC4122)]. *)
Definition with_variant_rfc4122 (bs : list Z) : list Z :=
  alter (fun b => Z.lor (Z.land b 63) 128) 8%nat bs.

(** [Builder::with_version(v)]: the version number in the high nibble of
    byte 6. *)
Definition with_version (v : Z) (bs : list Z) : list Z :=
  alter (fun b => Z.lor (Z.land b 15) (Z.shiftl v 4)) 6%nat bs.

(** [Version::Random as u8]. *)
Definition version_random : Z := 4.

(** [Uuid::new_v4()] given the 16 bytes the random source produced. *)
Definition new_v4 (random_bytes : list Z) : Uuid :=
  from_bytes (with_version version_random (with_variant_rfc4122 random_bytes)).


(** ** The text form of a [Uuid]

    serde serializes a [Uuid] as [self.hyphenated().encode_lower(..)]
    (when the format is human readable, as JSON is) and deserializes it
    with [Uuid::parse_str], i.e. the parser's [try_parse]. *)

(** [Uuid::as_bytes]: the 16 bytes, most significant first. *)
Fixpoint be_split (n : nat) (v : Z) : list Z :=
  match n with
  | O => []
  | S n' => Z.land (Z.shiftr v (8 * Z.of_nat n')) 255 :: be_split n' v
  end.

Definition as_bytes (u : Uuid) : list Z := be_split 16 (as_u128 u).

(** [Uuid::get_version_num]: [(self.as_bytes()[6] >> 4) as usize]. *)
Definition get_version_num (u : Uuid) : Z := Z.shiftr (as_bytes u !!! 6%nat) 4.

Inductive Variant := NCS | RFC4122 | Microsoft | Future.

(** [Uuid::get_variant]: the high bits of byte 8 (the last arm is
    [unreachable!()] in the source: the four tests cover every byte). *)
Definition get_variant (u : Uuid) : Variant :=
  let x := as_bytes u !!! 8%nat in
  if Z.land x 128 =? 0 then NCS
  else if Z.land x 192 =? 128 then RFC4122
  else if Z.land x 224 =? 192 then Microsoft
  else Future.

(** A byte of a Rust [&[u8]] / [str] is an [ascii] character here. *)
Definition byte_of_ascii (c : ascii) : Z := Z.of_N (N_of_ascii c).
Definition ascii_of_byte (b : Z) : ascii := ascii_of_N (Z.to_N b).

(** [LOWER] lookup table of the formatter. *)
Definition lower_lut : string := "0123456789abcdef".

Definition hex_lower (n : Z) : ascii :=
  match String.get (Z.to_nat n) lower_lut with
  | Some c => c
  | None => "0"%char
  end.

(** One byte as two lowercase hex digits: [lut[(b >> 4)]], [lut[b & 0x0f]]. *)
Definition encode_byte (b : Z) : string :=
  String (hex_lower (Z.shiftr b 4)) (String (hex_lower (Z.land b 15)) EmptyString).

Definition encode_bytes (bs : list Z) : string :=
  foldr (fun b acc => (encode_byte b ++ acc)%string) EmptyString bs.

Definition hyphen : string := "-".

(** [format_hyphenated]: the groups of bytes 0-3, 4-5, 6-7, 8-9, 10-15. *)
Definition format_hyphenated (bs : list Z) : string :=
  (encode_bytes (take 4 bs) ++ hyphen ++ encode_bytes (take 2 (drop 4 bs)) ++ hyphen ++
   encode_bytes (take 2 (drop 6 bs)) ++ hyphen ++ encode_bytes (take 2 (drop 8 bs)) ++ hyphen ++
   encode_bytes (drop 10 bs))%string.

(** [Uuid::hyphenated().encode_lower(..)] *)
Definition encode_lower (u : Uuid) : string := format_hyphenated (as_bytes u).

(** [HEX_TABLE]: the value of a hex digit, [0xff] for any other byte. *)
Definition hex_table (c : ascii) : Z :=
  let n := byte_of_ascii c in
  if (48 <=? n) && (n <=? 57) then n - 48
  else if (97 <=? n) && (n <=? 102) then n - 87
  else if (65 <=? n) && (n <=? 70) then n - 55
  else 255.

(** [SHL4_TABLE[h]]: [(h as u8) << 4]. *)
Definition shl4 (h : Z) : Z := Z.land (Z.shiftl h 4) 255.

(** [s[i]] after the length check. *)
Definition byte_at (s : string) (i : nat) : ascii :=
  match String.get i s with
  | Some c => c
  | None => "000"%char
  end.

(** The [while i < 16] loop of [parse_simple], from byte [i]. *)
Fixpoint parse_simple_loop (s : string) (i : nat) (fuel : nat) : option (list Z) :=
  match fuel with
  | O => Some []
  | S fuel' =>
      let h1 := hex_table (byte_at s (2 * i)) in
      let h2 := hex_table (byte_at s (2 * i + 1)) in
      if Z.lor h1 h2 =? 255 then None
      else
        match parse_simple_loop s (S i) fuel' with
        | Some rest => Some (Z.lor (shl4 h1) h2 :: rest)
        | None => None
        end
  end.

Definition parse_simple (s : string) : option (list Z) :=
  if Nat.eqb (String.length s) 32 then parse_simple_loop s 0 16 else None.

(** [positions] of [parse_hyphenated]. *)
Definition hyphenated_positions : list nat := [0; 4; 9; 14; 19; 24; 28; 32]%nat.

(** The [while j < 8] loop of [parse_hyphenated]. *)
Fixpoint parse_hyphenated_loop (s : string) (positions : list nat) : option (list Z) :=
  match positions with
  | [] => Some []
  | i :: ps =>
      let h1 := hex_table (byte_at s i) in
      let h2 := hex_table (byte_at s (i + 1)) in
      let h3 := hex_table (byte_at s (i + 2)) in
      let h4 := hex_table (byte_at s (i + 3)) in
      if Z.lor (Z.lor (Z.lor h1 h2) h3) h4 =? 255 then None
      else
        match parse_hyphenated_loop s ps with
        | Some rest => Some (Z.lor (shl4 h1) h2 :: Z.lor (shl4 h3) h4 :: rest)
        | None => None
        end
  end.

Definition is_hyphen (c : ascii) : bool := bool_decide (c = "-"%char).

Definition parse_hyphenated (s : string) : option (list Z) :=
  if Nat.eqb (String.length s) 36 then
    if is_hyphen (byte_at s 8) && is_hyphen (byte_at s 13) &&
       is_hyphen (byte_at s 18) && is_hyphen (byte_at s 23)
    then parse_hyphenated_loop s hyphenated_positions
    else None
  else None.

Definition urn_prefix : string := "urn:uuid:".

(** [try_parse]: simple (32), hyphenated (36), braced (38) or URN (45). *)
Definition try_parse (s : string) : option (list Z) :=
  match String.length s with
  | 32 => parse_simple s
  | 36 => parse_hyphenated s
  | 38 =>
      if bool_decide (String.get 0 s = Some "{"%char) &&
         bool_decide (String.get 37 s = Some "}"%char)
      then parse_hyphenated (String.substring 1 36 s) else None
  | 45 =>
      if bool_decide (String.substring 0 9 s = urn_prefix)
      then parse_hyphenated (String.substring 9 36 s) else None
  | _ => None
  end%nat.

(** [Uuid::parse_str]. *)
Definition parse_str (s : string) : option Uuid := from_bytes <$> try_parse s.

(** The integers [0 .. n-1], for proofs by enumeration. *)
Definition all_below (n : nat) : list Z := Z.of_nat <$> seq 0 n.

(** ** Bytes and their big-endian combination *)

Section Bytes.
Implicit Types (b : Z) (l : list Z).

#[local] Instance byte_wf_dec b : Decision (byte_wf b).
Proof. unfold byte_wf. apply _. Defined.

(** A property holds on [0 .. n-1] when it holds of the values of
    [all_below n]. *)
Lemma below_cases (P : Z -> Prop) n :
  Forall P (all_below n) -> forall b, 0 <= b < Z.of_nat n -> P b.
Proof.
  intros HP b Hb. rewrite Forall_forall in HP. apply HP.
  apply list_elem_of_fmap. exists (Z.to_nat b). split; [lia|].
  apply elem_of_seq. lia.
Qed.

Lemma byte_cases (P : Z -> Prop) : Forall P (all_below 256) -> forall b, byte_wf b -> P b.
Proof. intros HP b Hb. by apply (below_cases P 256). Qed.

Lemma lor_shiftl_byte a b : byte_wf b -> Z.lor (Z.shiftl a 8) b = a * 256 + b.
Proof.
  unfold byte_wf. intros Hb. rewrite Z.shiftl_mul_pow2 by lia.
  rewrite <- Z.lxor_lor, <- Z.add_nocarry_lxor; [reflexivity| |];
  apply Z.bits_inj'; intros i Hi; rewrite Z.land_spec, Z.bits_0;
  (destruct (Z.lt_ge_cases i 8) as [Hlt|Hge];
   [rewrite Z.mul_pow2_bits_low by lia; reflexivity
   |rewrite <- (Z.mod_small b (2^8)) by lia; rewrite Z.mod_pow2_bits_high by lia;
    apply Bool.andb_false_r]).
Qed.

Lemma byte_wf_land_255 v : byte_wf (Z.land v 255).
Proof.
  unfold byte_wf. change 255 with (Z.ones 8). rewrite Z.land_ones by lia.
  pose proof (Z.mod_pos_bound v (2 ^ 8)). lia.
Qed.

Lemma fold_be acc l :
  Forall byte_wf l ->
  fold_left (fun acc b => Z.lor (Z.shiftl acc 8) b) l acc =
  acc * 2 ^ (8 * Z.of_nat (length l)) + be_combine l.
Proof.
  revert acc. induction l as [|b l IH]; intros acc Hl; cbn [fold_left length].
  { rewrite Z.mul_0_r, Z.pow_0_r. unfold be_combine; simpl. lia. }
  apply Forall_cons in Hl as [Hb Hl].
  unfold be_combine at 1. cbn [fold_left].
  rewrite (IH _ Hl), (IH (Z.lor (Z.shiftl 0 8) b) Hl), !lor_shiftl_byte by done.
  rewrite Nat2Z.inj_succ, Z.mul_succ_r, Z.pow_add_r by lia. change (2 ^ 8) with 256. ring.
Qed.

Lemma be_combine_cons b l :
  Forall byte_wf l -> be_combine (b :: l) = b * 2 ^ (8 * Z.of_nat (length l)) + be_combine l.
Proof.
  intros Hl. unfold be_combine at 1. cbn [fold_left]. rewrite Z.shiftl_0_l, Z.lor_0_l.
  by apply fold_be.
Qed.

Lemma be_combine_bound l :
  Forall byte_wf l -> 0 <= be_combine l < 2 ^ (8 * Z.of_nat (length l)).
Proof.
  induction l as [|b l IH]; intros Hl; [cbn; lia|].
  apply Forall_cons in Hl as [Hb Hl]. rewrite be_combine_cons by done.
  specialize (IH Hl). unfold byte_wf in Hb. cbn [length].
  rewrite Nat2Z.inj_succ, Z.mul_succ_r, Z.pow_add_r by lia. change (2 ^ 8) with 256. nia.
Qed.

Lemma be_split_wf n v : Forall byte_wf (be_split n v).
Proof. induction n; simpl; constructor; auto using byte_wf_land_255. Qed.

Lemma length_be_split n v : length (be_split n v) = n.
Proof. induction n; simpl; auto. Qed.

Lemma be_split_byte v k :
  0 <= k -> Z.land (Z.shiftr v (8 * k)) 255 = (v / 2 ^ (8 * k)) mod 256.
Proof.
  intros Hk. change 255 with (Z.ones 8).
  rewrite Z.land_ones, Z.shiftr_div_pow2 by lia. reflexivity.
Qed.

Lemma be_combine_split n v : be_combine (be_split n v) = v mod 2 ^ (8 * Z.of_nat n).
Proof.
  induction n as [|n IH]; [cbn; by rewrite Z.mod_1_r|].
  cbn [be_split]. rewrite be_combine_cons by apply be_split_wf.
  rewrite IH, length_be_split, be_split_byte by lia.
  rewrite Nat2Z.inj_succ, Z.mul_succ_r, Z.pow_add_r by lia. change (2 ^ 8) with 256.
  rewrite Z.rem_mul_r; [ring| |lia].
  pose proof (Z.pow_pos_nonneg 2 (8 * Z.of_nat n)). lia.
Qed.

Lemma be_split_add_high m x c : be_split m (x * 2 ^ (8 * Z.of_nat m) + c) = be_split m c.
Proof.
  revert x. induction m as [|m IH]; intros x; [done|].
  cbn [be_split]. rewrite !be_split_byte by lia.
  rewrite Nat2Z.inj_succ, Z.mul_succ_r, Z.pow_add_r by lia. change (2 ^ 8) with 256.
  replace (x * (2 ^ (8 * Z.of_nat m) * 256) + c) with ((x * 256) * 2 ^ (8 * Z.of_nat m) + c) by ring.
  rewrite IH. f_equal.
  assert (0 < 2 ^ (8 * Z.of_nat m)) by (apply Z.pow_pos_nonneg; lia).
  rewrite Z.div_add_l by lia. rewrite Z.add_comm, Z.mod_add by lia. reflexivity.
Qed.

Lemma be_split_combine l : Forall byte_wf l -> be_split (length l) (be_combine l) = l.
Proof.
  induction l as [|b l IH]; intros Hl; [done|].
  apply Forall_cons in Hl as [Hb Hl]. rewrite be_combine_cons by done.
  cbn [length be_split]. rewrite be_split_add_high, IH by done. f_equal.
  pose proof (be_combine_bound l Hl). unfold byte_wf in Hb.
  rewrite be_split_byte, Z.div_add_l, Z.div_small, Z.add_0_r, Z.mod_small by lia. reflexivity.
Qed.
End Bytes.

(** ** The uuid operations on well-formed values *)

Section UuidFacts.
Implicit Types (u : Uuid) (bs : list Z).

Lemma as_bytes_wf u : Forall byte_wf (as_bytes u) /\ length (as_bytes u) = 16%nat.
Proof. split; [apply be_split_wf|apply length_be_split]. Qed.

Lemma from_bytes_as_bytes u : uuid_wf u -> from_bytes (as_bytes u) = u.
Proof.
  destruct u as [v]. unfold uuid_wf, from_bytes, as_bytes; cbn [as_u128]. intros Hv.
  rewrite be_combine_split. f_equal. by apply Z.mod_small.
Qed.

Lemma as_bytes_from_bytes bs :
  length bs = 16%nat -> Forall byte_wf bs -> as_bytes (from_bytes bs) = bs.
Proof. intros Hlen Hbs. unfold as_bytes, from_bytes; cbn [as_u128]. rewrite <- Hlen. by apply be_split_combine. Qed.

Lemma from_bytes_wf bs : length bs = 16%nat -> Forall byte_wf bs -> uuid_wf (from_bytes bs).
Proof.
  intros Hlen Hbs. unfold uuid_wf, from_bytes; cbn [as_u128].
  pose proof (be_combine_bound bs Hbs) as Hb. by rewrite Hlen in Hb.
Qed.

Lemma variant_byte_wf b : byte_wf b -> byte_wf (Z.lor (Z.land b 63) 128).
Proof. revert b. apply byte_cases. by_eval. Qed.

Lemma version_byte_wf b : byte_wf b -> byte_wf (Z.lor (Z.land b 15) (Z.shiftl version_random 4)).
Proof. revert b. apply byte_cases. by_eval. Qed.

Lemma new_v4_bytes bs :
  length bs = 16%nat -> Forall byte_wf bs ->
  length (with_version version_random (with_variant_rfc4122 bs)) = 16%nat /\
  Forall byte_wf (with_version version_random (with_variant_rfc4122 bs)).
Proof.
  intros Hlen Hbs. unfold with_version, with_variant_rfc4122. rewrite !length_alter.
  split; [done|]. apply Forall_alter; [|intros x _; apply version_byte_wf].
  apply Forall_alter; [done|intros x _; apply variant_byte_wf].
Qed.

Lemma version_nibble b :
  byte_wf b -> Z.shiftr (Z.lor (Z.land b 15) (Z.shiftl version_random 4)) 4 = version_random.
Proof. revert b. apply byte_cases. by_eval. Qed.

Lemma variant_rfc4122_byte b :
  byte_wf b ->
  (Z.land (Z.lor (Z.land b 63) 128) 128 =? 0) = false /\
  (Z.land (Z.lor (Z.land b 63) 128) 192 =? 128) = true.
Proof. revert b. apply byte_cases. by_eval. Qed.

Lemma byte_at_index bs i :
  Forall byte_wf bs -> (i < length bs)%nat -> byte_wf (bs !!! i).
Proof.
  intros Hbs Hi. destruct (lookup_lt_is_Some_2 bs i Hi) as [b Hb].
  rewrite (list_lookup_total_correct bs i b Hb). by eapply Forall_lookup_1.
Qed.

(** What [Uuid::new_v4] guarantees of the id it returns, for any 16
    random bytes: a 128-bit value, version 4, variant RFC 4122. *)
Lemma new_v4_spec bs :
  length bs = 16%nat -> Forall byte_wf bs ->
  uuid_wf (new_v4 bs) /\ get_version_num (new_v4 bs) = version_random /\
  get_variant (new_v4 bs) = RFC4122.
Proof.
  intros Hlen Hbs. destruct (new_v4_bytes bs Hlen Hbs) as [Hlen' Hbs'].
  split; [by apply from_bytes_wf|].
  unfold get_version_num, get_variant, new_v4. rewrite as_bytes_from_bytes by done.
  unfold with_version, with_variant_rfc4122.
  rewrite list_lookup_total_alter_eq by (rewrite length_alter; lia).
  rewrite list_lookup_total_alter_ne by lia.
  rewrite list_lookup_total_alter_ne by lia.
  rewrite list_lookup_total_alter_eq by lia.
  split; [apply version_nibble, byte_at_index; [done|lia]|].
  destruct (variant_rfc4122_byte (bs !!! 8%nat)) as [-> ->]; [apply byte_at_index; [done|lia]|done].
Qed.

(** ** The text form: [parse_str] inverts [encode_lower] *)

Lemma hex_hi b : byte_wf b -> hex_table (hex_lower (Z.shiftr b 4)) = Z.shiftr b 4.
Proof. revert b. apply byte_cases. by_eval. Qed.

Lemma hex_lo b : byte_wf b -> hex_table (hex_lower (Z.land b 15)) = Z.land b 15.
Proof. revert b. apply byte_cases. by_eval. Qed.

Lemma byte_join b : byte_wf b -> Z.lor (shl4 (Z.shiftr b 4)) (Z.land b 15) = b.
Proof. revert b. apply byte_cases. by_eval. Qed.

Lemma nibbles_lt b : byte_wf b -> 0 <= Z.shiftr b 4 < 16 /\ 0 <= Z.land b 15 < 16.
Proof. revert b. apply byte_cases. by_eval. Qed.

Lemma log2_nibble a : 0 <= a < 16 -> Z.log2 a < 4.
Proof.
  intros Ha. destruct (Z.eq_dec a 0) as [->|Hne]; [simpl; lia|].
  apply Z.log2_lt_pow2; [lia|]. change (2 ^ 4) with 16. lia.
Qed.

Lemma lor_nibble x y : 0 <= x < 16 -> 0 <= y < 16 -> 0 <= Z.lor x y < 16.
Proof.
  intros Hx Hy. assert (0 <= Z.lor x y) by (apply Z.lor_nonneg; lia). split; [assumption|].
  destruct (Z.eq_dec (Z.lor x y) 0) as [->|Hne]; [lia|].
  change 16 with (2 ^ 4). apply Z.log2_lt_pow2; [lia|].
  rewrite Z.log2_lor by lia. pose proof (log2_nibble x Hx). pose proof (log2_nibble y Hy). lia.
Qed.

(** The validity test of [parse_hyphenated] on the four digits of two
    encoded bytes. *)
Lemma hex_group_valid a b :
  byte_wf a -> byte_wf b ->
  (Z.lor (Z.lor (Z.lor (Z.shiftr a 4) (Z.land a 15)) (Z.shiftr b 4)) (Z.land b 15) =? 255) = false.
Proof.
  intros Ha Hb. destruct (nibbles_lt a Ha), (nibbles_lt b Hb).
  apply Z.eqb_neq. pose proof (lor_nibble (Z.lor (Z.lor (Z.shiftr a 4) (Z.land a 15)) (Z.shiftr b 4))
    (Z.land b 15)). pose proof (lor_nibble (Z.lor (Z.shiftr a 4) (Z.land a 15)) (Z.shiftr b 4)).
  pose proof (lor_nibble (Z.shiftr a 4) (Z.land a 15)). lia.
Qed.

Lemma try_parse_format bs :
  length bs = 16%nat -> Forall byte_wf bs -> try_parse (format_hyphenated bs) = Some bs.
Proof.
  intros Hlen Hbs.
  do 16 (destruct bs as [|? bs]; [done|]). destruct bs; [|done].
  repeat match goal with H : Forall _ (_ :: _) |- _ => apply Forall_cons in H as [? H] end.
  cbv -[hex_lower hex_table shl4 Z.lor Z.shiftr Z.land Z.eqb].
  repeat match goal with
  | H : byte_wf ?b |- context [hex_table (hex_lower (Z.shiftr ?b 4))] => rewrite (hex_hi b H)
  | H : byte_wf ?b |- context [hex_table (hex_lower (Z.land ?b 15))] => rewrite (hex_lo b H)
  end.
  repeat match goal with
  | |- context [Z.lor (Z.lor (Z.lor (Z.shiftr ?a 4) (Z.land ?a 15)) (Z.shiftr ?b 4)) (Z.land ?b 15) =? 255] =>
      rewrite (hex_group_valid a b) by assumption
  end.
  cbv -[shl4 Z.lor Z.shiftr Z.land].
  by rewrite !byte_join by assumption.
Qed.

(** [Uuid::parse_str] reads back what [encode_lower] writes. *)
Lemma parse_str_encode_lower u : uuid_wf u -> parse_str (encode_lower u) = Some u.
Proof.
  intros Hu. unfold parse_str, encode_lower. destruct (as_bytes_wf u) as [Hbs Hlen].
  rewrite try_parse_format by done. simpl. by rewrite from_bytes_as_bytes.
Qed.
End UuidFacts.
