(* ===== verification/Task.v ===== *)
(** * The data model: [enum Status] and [struct Task]

    [Status] has the source's two variants; [Task] has the source's five
    fields in their declaration order (the order serde writes them).
    [struct Tasks(Vec<Task>)] is the list [list Task]: the newtype adds
    nothing but the method namespace, which is the module [Tasks] of
    [Store.v]. *)
From S2P Require Import Prelude Uuid.
From stdpp Require Import base list strings countable.

Inductive Status :=
| Todo
| Done.

#[export] Instance Status_eq_dec : EqDecision Status.
Proof. solve_decision. Defined.

Record Task := mkTask {
  id : Uuid;
  name : string;
  description : string;
  status : Status;
  subtasks : list Uuid
}.

#[export] Instance Task_eq_dec : EqDecision Task.
Proof.
  intros [i1 n1 d1 s1 l1] [i2 n2 d2 s2 l2].
  destruct (decide (i1 = i2)), (decide (n1 = n2)), (decide (d1 = d2)),
    (decide (s1 = s2)), (decide (l1 = l2)); subst;
    first [left; reflexivity | right; intros Heq; injection Heq; intros; contradiction].
Defined.

(** The match in [mark_task_toggle]: [Todo => Done, Done => Todo]. *)
Definition flip_status (s : Status) : Status :=
  match s with
  | Todo => Done
  | Done => Todo
  end.

(** [task.status = ...] *)
Definition set_status (t : Task) (s : Status) : Task :=
  mkTask (id t) (name t) (description t) s (subtasks t).

(** [task.subtasks.push(sub)] *)
Definition push_subtask (t : Task) (sub : Uuid) : Task :=
  mkTask (id t) (name t) (description t) (status t) (subtasks t ++ [sub]).

(** [task.subtasks = subs] (the result of an in-place [retain]) *)
Definition set_subtasks (t : Task) (subs : list Uuid) : Task :=
  mkTask (id t) (name t) (description t) (status t) subs.

(** The literal [Task { id, name, description, status: Status::Todo,
    subtasks: vec![] }] of the [add_task] and [add_subtask] handlers. *)
Definition new_task (i : Uuid) (n d : string) : Task :=
  mkTask i n d Todo [].

Lemma flip_status_involutive s : flip_status (flip_status s) = s.
Proof. by destruct s. Qed.

Lemma flip_status_neq s : flip_status s <> s.
Proof. by destruct s. Qed.

#[export] Hint Rewrite flip_status_involutive : tw_rw.
