(* ===== verification/Store.v ===== *)
(** * The Task Store: [impl Tasks]

    One definition per method of [impl Tasks] (src/src/main.rs, lines
    33-143), in module [Tasks], over the list [list Task] that
    [Tasks(Vec<Task>)] wraps.  Methods that call [unwrap] return an
    [outcome]; the others are total functions.

    [remove_task] and [remove_task_from_subtasks] compare raw addresses
    with [std::ptr::addr_eq].  Addresses are modelled by [loc]: the slot of
    a [Task] in the buffer of the tasks vector, or the slot of a [Uuid] in
    the buffer of one task's [subtasks] vector.  The two buffers are
    separate heap allocations, so an address of one kind never equals an
    address of the other. *)
From S2P Require Import Prelude Uuid Task.
From stdpp Require Import base list strings sets relations.

Open Scope tw_scope.

(** ** Addresses *)

Inductive loc :=
| TaskSlot (k : nat)
| SubtaskSlot (owner k : nat).

#[export] Instance loc_eq_dec : EqDecision loc.
Proof. solve_decision. Defined.

(** [std::ptr::addr_eq(p, q)]. *)
Definition addr_eq (p q : loc) : bool := bool_decide (p = q).

(** [{:?}] of a [Status]. *)
Definition status_debug (s : Status) : string :=
  match s with
  | Todo => "Todo"
  | Done => "Done"
  end.

Module Tasks.

(** [fn get_from_id(&self, id) -> Option<&Task>]: the first task whose
    id is [i]. *)
Fixpoint get_from_id (ts : list Task) (i : Uuid) : option Task :=
  match ts with
  | [] => None
  | t :: ts' => if decide (id t = i) then Some t else get_from_id ts' i
  end.

(** [fn get_from_id_mut(&mut self, id) -> Option<&mut Task>]: the
    mutable reference is the slot of the first task whose id is [i]. *)
Fixpoint get_from_id_mut (ts : list Task) (i : Uuid) : option nat :=
  match ts with
  | [] => None
  | t :: ts' => if decide (id t = i) then Some 0 else S <$> get_from_id_mut ts' i
  end.

(** The [for (idx, task) in self.0.iter().enumerate()] loop of
    [get_index_from_id]. *)
Fixpoint index_loop (ts : list Task) (target : Uuid) (idx : nat) : option nat :=
  match ts with
  | [] => None
  | t :: ts' => if decide (id t = target) then Some idx else index_loop ts' target (S idx)
  end.

(** [fn get_index_from_id(&self, id) -> Option<usize>]: panics when no
    task has id [i] ([unwrap]). *)
Definition get_index_from_id (ts : list Task) (i : Uuid) : outcome (option nat) :=
  task_from_id <-! unwrap (get_from_id ts i);
  Ok (index_loop ts (id task_from_id) 0).

(** [fn remove_task_from_subtasks(&mut self, id, task: *const Task)]:
    every task [x] (at slot [owner]) retains the subtask ids whose address
    is not [task]. *)
Definition remove_task_from_subtasks (ts : list Task) (i : Uuid) (task : loc) : list Task :=
  imap (fun owner x =>
          set_subtasks x
            (vec_retain (fun k _ => negb (addr_eq (SubtaskSlot owner k) task)) (subtasks x)))
    ts.

(** [fn remove_task(&mut self, task: *const Task, task_id)]: retain the
    tasks whose address is not [task], then clean the subtask lists. *)
Definition remove_task (ts : list Task) (task : loc) (task_id : Uuid) : list Task :=
  let ts' := vec_retain (fun k _ => negb (addr_eq (TaskSlot k) task)) ts in
  remove_task_from_subtasks ts' task_id task.

(** The body of the [for tasks in task.subtasks.iter()] loop of
    [display]: what is printed for one subtask id. *)
Definition display_subtask (ts : list Task) (parent : Task) (s : Uuid) : string :=
  match get_from_id ts s with
  | Some subtask =>
      ((if bool_decide (subtasks parent = []) then "" else println "  Has the subtasks:") ++
       println ("  > Sub Task: " ++ name subtask) ++
       println ("  > " ++ description subtask) ++
       println ("  > Status: " ++ status_debug (status subtask)))%string
  | None => ""
  end.

(** [fn display(&self, id)]: the text it prints. *)
Definition display (ts : list Task) (i : Uuid) : outcome string :=
  task <-! unwrap (get_from_id ts i);
  Ok (println ("Task: " ++ name task) ++
      println ("  " ++ description task) ++
      println ("  Status: " ++ status_debug (status task)) ++
      foldr (fun s acc => display_subtask ts task s ++ acc) "" (subtasks task) ++
      println "")%string.

(** The loop of [check_if_subtasks_done] over the subtask ids: the first
    [Todo] subtask answers [false]; an id that does not resolve panics
    ([unwrap]). *)
Fixpoint subtasks_done_loop (ts : list Task) (subs : list Uuid) : outcome bool :=
  match subs with
  | [] => Ok true
  | s :: subs' =>
      t <-! unwrap (get_from_id ts s);
      match status t with
      | Todo => Ok false
      | Done => subtasks_done_loop ts subs'
      end
  end.

(** [fn check_if_subtasks_done(&self, id) -> bool]. *)
Definition check_if_subtasks_done (ts : list Task) (i : Uuid) : outcome bool :=
  task <-! unwrap (get_from_id ts i);
  subtasks_done_loop ts (subtasks task).

(** [fn mark_task_toggle(&mut self, id)]: every task with id [i] flips. *)
Definition mark_task_toggle (ts : list Task) (i : Uuid) : list Task :=
  map (fun t => if decide (id t = i) then set_status t (flip_status (status t)) else t) ts.

(** [fn add_task(&mut self, task)]: [self.0.push(task)]. *)
Definition add_task (ts : list Task) (task : Task) : list Task := ts ++ [task].

(** [fn make_subtask(&mut self, to_task, subtask)]: every task with id
    [to_task] gets [subtask] pushed onto its subtask list. *)
Definition make_subtask (ts : list Task) (to_task subtask : Uuid) : list Task :=
  map (fun t => if decide (id t = to_task) then push_subtask t subtask else t) ts.

(** [fn add_subtask(&mut self, add_to, task)]: link the new id under
    every task with id [add_to], then push the task. *)
Definition add_subtask (ts : list Task) (add_to : Uuid) (task : Task) : list Task :=
  let i := id task in
  add_task (map (fun t => if decide (id t = add_to) then push_subtask t i else t) ts) task.

End Tasks.

(** ** The ids of a store and their uniqueness *)

Definition ids (ts : list Task) : list Uuid := id <$> ts.

(** The store invariant: no two tasks share an id. *)
Definition ids_unique (ts : list Task) : Prop := NoDup (ids ts).

#[export] Instance ids_unique_dec ts : Decision (ids_unique ts).
Proof. unfold ids_unique. apply _. Defined.

(** A subtask id resolves to a task whose status is [Done]. *)
Definition resolves_done (ts : list Task) (s : Uuid) : Prop :=
  exists st, Tasks.get_from_id ts s = Some st /\ status st = Done.

(** A task-to-task operation that keeps the id of every task. *)
Definition keeps_id (f : Task -> Task) : Prop := forall t, id (f t) = id t.

(** ** The store as a labelled state machine

    A label [cmd] is what one iteration of [main]'s loop asks of the
    store, as the typed input decides it: the trimmed name and
    description of a new task, the slots [select] returned (in the order
    the handler reads them), and the answer of [confirm].  [lstep ts c
    ts'] is the store-changing effect of the handler for [c] when it does
    not panic: [add_task] and [add_subtask] with the id [Uuid::new_v4]
    drew (assumed absent from the store: a collision of 122 random bits
    is not modelled), [make_subtask] linking the first selected task under
    the second, [toggle_task] flipping the selected task when
    [check_if_subtasks_done] answers [true] and leaving the store when it
    answers [false], [remove_task] of the selected slot when confirmed.
    [PickAction] and [Display] leave the store as it is. *)
Inductive cmd :=
| CPick
| CAdd (name description : string)
| CAddSubtask (add_to : nat) (name description : string)
| CMakeSubtask (sub to_task : nat)
| CToggle (k : nat)
| CDelete (k : nat) (confirmed : bool)
| CDisplay.

Inductive lstep : list Task -> cmd -> list Task -> Prop :=
| LPick ts : lstep ts CPick ts
| LAdd ts i n d :
    i ∉ ids ts -> lstep ts (CAdd n d) (Tasks.add_task ts (new_task i n d))
| LAddSubtask ts k p i n d :
    ts !! k = Some p -> i ∉ ids ts ->
    lstep ts (CAddSubtask k n d) (Tasks.add_subtask ts (id p) (new_task i n d))
| LMakeSubtask ts ks kt s t :
    ts !! ks = Some s -> ts !! kt = Some t ->
    lstep ts (CMakeSubtask ks kt) (Tasks.make_subtask ts (id t) (id s))
| LToggle ts k t (b : bool) :
    ts !! k = Some t -> Tasks.check_if_subtasks_done ts (id t) = Ok b ->
    lstep ts (CToggle k) (if b then Tasks.mark_task_toggle ts (id t) else ts)
| LDelete ts k t (yes : bool) :
    ts !! k = Some t ->
    lstep ts (CDelete k yes) (if yes then Tasks.remove_task ts (TaskSlot k) (id t) else ts)
| LDisplay ts : lstep ts CDisplay ts.

(** A sequence of labelled steps. *)
Inductive lsteps : list Task -> list cmd -> list Task -> Prop :=
| LStepsNil ts : lsteps ts [] ts
| LStepsCons ts c cs ts1 ts2 : lstep ts c ts1 -> lsteps ts1 cs ts2 -> lsteps ts (c :: cs) ts2.

(** A step with some label. *)
Definition step (ts ts' : list Task) : Prop := exists c, lstep ts c ts'.

(** A step after which a task with id [i] is still in the store. *)
Definition step_keeping (i : Uuid) (ts ts' : list Task) : Prop := step ts ts' /\ i ∈ ids ts'.

(** A [Todo] task with id [i] lists itself among its subtasks (nothing in
    [make_subtask] prevents it). *)
Definition self_linked_todo (ts : list Task) (i : Uuid) : Prop :=
  exists t, t ∈ ts /\ id t = i /\ status t = Todo /\ i ∈ subtasks t.

(** ** Sample stores used by the witnesses below

    [sample_ab] is the store after "add task A, add subtask B under A" of
    the scenario in the specification (ids 1 and 2 stand for the random
    ones); [sample_loop] holds one [Todo] task that lists itself. *)
Definition task_a : Task := mkTask (Uuid_from_u128 1) "Write spec" "draft v1" Todo [Uuid_from_u128 2].
Definition task_b : Task := new_task (Uuid_from_u128 2) "Review" "".
Definition sample_ab : list Task := [task_a; task_b].
Definition task_loop : Task := mkTask (Uuid_from_u128 3) "Loop" "" Todo [Uuid_from_u128 3].
Definition sample_loop : list Task := [task_loop].

(** [sample_parent]: a task [P] whose subtasks are A and B. *)
Definition task_p : Task := mkTask (Uuid_from_u128 4) "Parent" "" Todo [Uuid_from_u128 1; Uuid_from_u128 2].
Definition sample_parent : list Task := [task_p; task_a; task_b].

Section Lookup.
Implicit Types (ts : list Task) (t : Task) (i : Uuid).

Lemma get_from_id_Some ts i t :
  Tasks.get_from_id ts i = Some t -> t ∈ ts /\ id t = i.
Proof.
  induction ts as [|t' ts IH]; simpl; [done|].
  case_decide; [intros [= <-]; split; [left|done]|].
  intros [? ?]%IH. split; [by right|done].
Qed.

Lemma get_from_id_None ts i : Tasks.get_from_id ts i = None <-> i ∉ ids ts.
Proof.
  unfold ids. induction ts as [|t ts IH]; simpl; [set_solver|].
  case_decide; rewrite elem_of_cons; naive_solver.
Qed.

Lemma get_from_id_app ts1 ts2 i :
  Tasks.get_from_id (ts1 ++ ts2) i =
    match Tasks.get_from_id ts1 i with
    | Some t => Some t
    | None => Tasks.get_from_id ts2 i
    end.
Proof. induction ts1 as [|t ts1 IH]; simpl; [done|]. by case_decide. Qed.

Lemma get_from_id_unique ts i t :
  ids_unique ts -> t ∈ ts -> id t = i -> Tasks.get_from_id ts i = Some t.
Proof.
  unfold ids_unique, ids. induction ts as [|t' ts IH]; simpl; [set_solver|].
  intros Hnd Hin <-. apply NoDup_cons in Hnd as [Hnot Hnd].
  case_decide as Heq; apply elem_of_cons in Hin as [->|Hin]; try done.
  - destruct Hnot. rewrite Heq. by apply list_elem_of_fmap_2.
  - by apply IH.
Qed.

Lemma ids_unique_lookup ts j k t t' :
  ids_unique ts -> ts !! j = Some t -> ts !! k = Some t' -> id t = id t' -> j = k.
Proof.
  intros Hnd Hj Hk Heq. eapply NoDup_lookup; [exact Hnd| |].
  - unfold ids. by rewrite list_lookup_fmap, Hj.
  - unfold ids. by rewrite list_lookup_fmap, Hk, Heq.
Qed.

Lemma index_loop_mut ts x k :
  Tasks.index_loop ts x k = (fun n => k + n) <$> Tasks.get_from_id_mut ts x.
Proof.
  revert k. induction ts as [|t ts IH]; intros k; simpl; [done|].
  case_decide; simpl; [f_equal; lia|]. rewrite IH, <- option_fmap_compose.
  apply option_fmap_ext. intros n. simpl. lia.
Qed.

Lemma get_from_id_mut_lookup ts i :
  match Tasks.get_from_id_mut ts i with
  | Some k => ts !! k = Tasks.get_from_id ts i /\ is_Some (ts !! k)
  | None => Tasks.get_from_id ts i = None
  end.
Proof.
  induction ts as [|t ts IH]; simpl; [done|].
  case_decide; simpl; [by eauto|].
  destruct (Tasks.get_from_id_mut ts i); simpl; done.
Qed.

(** Deleting the slot of [t] leaves the lookups of the other ids alone. *)
Lemma get_from_id_delete ts k t j :
  ts !! k = Some t -> j <> id t -> Tasks.get_from_id (delete k ts) j = Tasks.get_from_id ts j.
Proof.
  revert k. induction ts as [|x ts IH]; intros k Hk Hj; [done|].
  destruct k as [|k]; simpl in *.
  - simplify_eq. by rewrite decide_False.
  - case_decide; [done|]. by apply IH.
Qed.

Lemma get_from_id_map f ts i :
  keeps_id f -> Tasks.get_from_id (map f ts) i = f <$> Tasks.get_from_id ts i.
Proof.
  intros Hf. induction ts as [|t ts IH]; simpl; [done|].
  rewrite Hf. by case_decide.
Qed.

Lemma ids_map f ts : keeps_id f -> ids (map f ts) = ids ts.
Proof.
  intros Hf. unfold ids. induction ts as [|t ts IH]; simpl; [done|]. f_equal; [apply Hf|apply IH].
Qed.
End Lookup.

(** ** [remove_task]: what the address comparisons select *)

Section Remove.
Implicit Types (ts : list Task) (t : Task) (i : Uuid).

Lemma set_subtasks_same t : set_subtasks t (subtasks t) = t.
Proof. by destruct t. Qed.

(** A subtask slot is never the address of a task. *)
Lemma addr_eq_subtask_task owner k k' : addr_eq (SubtaskSlot owner k) (TaskSlot k') = false.
Proof. by apply bool_decide_false. Qed.

Lemma addr_eq_task_task j k : addr_eq (TaskSlot j) (TaskSlot k) = bool_decide (j = k).
Proof. apply bool_decide_ext. split; [by intros [=]|by intros ->]. Qed.

Lemma remove_task_from_subtasks_noop ts i k :
  Tasks.remove_task_from_subtasks ts i (TaskSlot k) = ts.
Proof.
  unfold Tasks.remove_task_from_subtasks.
  rewrite (imap_ext _ (const (fun x => x))), imap_const, list_fmap_id; [done|].
  intros owner x _; cbn beta.
  rewrite vec_retain_all; [apply set_subtasks_same|].
  intros j _. by rewrite addr_eq_subtask_task.
Qed.

Lemma remove_task_slot ts k i : Tasks.remove_task ts (TaskSlot k) i = delete k ts.
Proof.
  unfold Tasks.remove_task. rewrite remove_task_from_subtasks_noop.
  rewrite <- vec_retain_delete. apply vec_retain_ext. intros j _. by rewrite addr_eq_task_task.
Qed.
End Remove.

(** ** [check_if_subtasks_done]: its three outcomes *)


(** ** [check_if_subtasks_done]: its three outcomes *)

Section Check.
Implicit Types (ts : list Task) (t : Task) (i s : Uuid) (subs : list Uuid).

Lemma subtasks_done_loop_true ts subs :
  Tasks.subtasks_done_loop ts subs = Ok true <-> Forall (resolves_done ts) subs.
Proof.
  induction subs as [|s subs IH]; simpl; [split; auto|].
  rewrite Forall_cons, <- IH. unfold resolves_done.
  destruct (Tasks.get_from_id ts s) as [st|]; simpl.
  - destruct (status st) eqn:Hst; split.
    + done.
    + intros [(? & [= <-] & ?) _]. congruence.
    + intros H. split; [by exists st|done].
    + by intros [_ ?].
  - split; [done|]. by intros [(? & ? & _) _].
Qed.
Lemma subtasks_done_loop_false ts subs :
  Tasks.subtasks_done_loop ts subs = Ok false <->
  exists pre s post st, subs = pre ++ s :: post /\ Forall (resolves_done ts) pre /\
    Tasks.get_from_id ts s = Some st /\ status st = Todo.
Proof.
  induction subs as [|s subs IH]; simpl.
  - split; [done|]. intros (pre & ? & ? & ? & Heq & _). by destruct pre.
  - destruct (Tasks.get_from_id ts s) as [st|] eqn:Hs; simpl.
    + destruct (status st) eqn:Hst.
      * split; [intros _; by exists [], s, subs, st|done].
      * rewrite IH. split.
        { intros (pre & s' & post & st' & -> & ? & ? & ?). exists (s :: pre), s', post, st'.
          split_and!; auto. constructor; [by exists st|done]. }
        { intros ([|s0 pre] & s' & post & st' & Heq & Hpre & Hs' & Hst');
            simplify_eq/=; try congruence.
          apply Forall_cons in Hpre as [_ ?]. eexists pre, s', post; eauto. }
    + split; [done|].
      intros ([|s0 pre] & s' & post & st' & Heq & Hpre & Hs' & Hst'); simplify_eq/=; try congruence.
      apply Forall_cons in Hpre as [(? & ? & _) _]. congruence.
Qed.

Lemma subtasks_done_loop_panic ts subs p :
  Tasks.subtasks_done_loop ts subs = Panic p <->
  p = UnwrapNone /\ exists pre s post, subs = pre ++ s :: post /\
    Forall (resolves_done ts) pre /\ Tasks.get_from_id ts s = None.
Proof.
  induction subs as [|s subs IH]; simpl.
  - split; [done|]. intros (_ & pre & ? & ? & Heq & _). by destruct pre.
  - destruct (Tasks.get_from_id ts s) as [st|] eqn:Hs; simpl.
    + destruct (status st) eqn:Hst.
      * split; [done|].
        intros (_ & [|s0 pre] & s' & post & Heq & Hpre & Hs'); simplify_eq/=; try congruence.
        apply Forall_cons in Hpre as [(? & ? & ?) _]. congruence.
      * rewrite IH. split.
        { intros (-> & pre & s' & post & -> & ? & ?). split; [done|].
          exists (s :: pre), s', post. split_and!; auto. constructor; [by exists st|done]. }
        { intros (-> & [|s0 pre] & s' & post & Heq & Hpre & Hs'); simplify_eq/=; try congruence.
          apply Forall_cons in Hpre as [_ ?]. split; [done|]. eexists pre, s', post; eauto. }
    + split.
      { intros [= <-]. split; [done|]. by exists [], s, subs. }
      { by intros [-> _]. }
Qed.

Lemma check_if_subtasks_done_true ts i :
  Tasks.check_if_subtasks_done ts i = Ok true <->
  exists t, Tasks.get_from_id ts i = Some t /\ Forall (resolves_done ts) (subtasks t).
Proof.
  unfold Tasks.check_if_subtasks_done.
  destruct (Tasks.get_from_id ts i) as [t|]; simpl; [|naive_solver].
  rewrite subtasks_done_loop_true. naive_solver.
Qed.

Lemma check_if_subtasks_done_false ts i :
  Tasks.check_if_subtasks_done ts i = Ok false <->
  exists t pre s post st, Tasks.get_from_id ts i = Some t /\ subtasks t = pre ++ s :: post /\
    Forall (resolves_done ts) pre /\ Tasks.get_from_id ts s = Some st /\ status st = Todo.
Proof.
  unfold Tasks.check_if_subtasks_done.
  destruct (Tasks.get_from_id ts i) as [t|]; simpl; [|naive_solver].
  rewrite subtasks_done_loop_false. naive_solver.
Qed.

Lemma check_if_subtasks_done_panic ts i p :
  Tasks.check_if_subtasks_done ts i = Panic p <->
  p = UnwrapNone /\
  (Tasks.get_from_id ts i = None \/
   exists t pre s post, Tasks.get_from_id ts i = Some t /\ subtasks t = pre ++ s :: post /\
     Forall (resolves_done ts) pre /\ Tasks.get_from_id ts s = None).
Proof.
  unfold Tasks.check_if_subtasks_done.
  destruct (Tasks.get_from_id ts i) as [t|]; simpl; [|naive_solver].
  rewrite subtasks_done_loop_panic. naive_solver.
Qed.
End Check.

(** ** The other operations: what they do to the ids and to one task *)

Section Ops.
Implicit Types (ts : list Task) (t : Task) (i p c : Uuid).

Lemma keeps_id_toggle i :
  keeps_id (fun t => if decide (id t = i) then set_status t (flip_status (status t)) else t).
Proof. intros t. by case_decide. Qed.

Lemma keeps_id_push p c :
  keeps_id (fun t => if decide (id t = p) then push_subtask t c else t).
Proof. intros t. by case_decide. Qed.

Lemma ids_add_task ts t : ids (Tasks.add_task ts t) = ids ts ++ [id t].
Proof. unfold ids, Tasks.add_task. by rewrite fmap_app. Qed.

Lemma ids_mark_task_toggle ts i : ids (Tasks.mark_task_toggle ts i) = ids ts.
Proof. apply ids_map, keeps_id_toggle. Qed.

Lemma ids_make_subtask ts p c : ids (Tasks.make_subtask ts p c) = ids ts.
Proof. apply ids_map, keeps_id_push. Qed.

Lemma ids_add_subtask ts p t : ids (Tasks.add_subtask ts p t) = ids ts ++ [id t].
Proof. unfold Tasks.add_subtask. by rewrite ids_add_task, ids_map by apply keeps_id_push. Qed.

Lemma ids_delete ts k : ids (delete k ts) = delete k (ids ts).
Proof. unfold ids. apply list_fmap_delete. Qed.

(** Pushing onto a subtask list keeps a task's id, status and earlier
    subtasks. *)
Lemma push_if_elem ts t p c :
  t ∈ ts ->
  exists t', t' ∈ map (fun t => if decide (id t = p) then push_subtask t c else t) ts /\
    id t' = id t /\ status t' = status t /\ subtasks t ⊆ subtasks t'.
Proof.
  intros Ht. eexists. split; [apply list_elem_of_In, in_map, list_elem_of_In, Ht|].
  case_decide; simpl; split_and!; set_solver.
Qed.

Lemma mark_task_toggle_other ts t i :
  t ∈ ts -> id t <> i -> t ∈ Tasks.mark_task_toggle ts i.
Proof.
  intros Ht Hne. unfold Tasks.mark_task_toggle.
  apply list_elem_of_In, in_map_iff. exists t. split; [by case_decide|by apply list_elem_of_In].
Qed.

(** Under unique ids, a task whose own id is among its subtasks and
    which is [Todo] fails the gate of [check_if_subtasks_done]. *)
Lemma self_linked_not_done ts t :
  ids_unique ts -> t ∈ ts -> status t = Todo -> id t ∈ subtasks t ->
  Tasks.check_if_subtasks_done ts (id t) <> Ok true.
Proof.
  intros Hnd Ht Htodo Hself (t0 & Hget & Hall)%check_if_subtasks_done_true.
  rewrite (get_from_id_unique ts (id t) t) in Hget by done. simplify_eq.
  rewrite Forall_forall in Hall. destruct (Hall (id t0) Hself) as (st & Hst & Hdone).
  rewrite (get_from_id_unique ts (id t0) t0) in Hst by done. congruence.
Qed.
End Ops.

#[export] Hint Rewrite ids_add_task ids_mark_task_toggle ids_make_subtask
  ids_add_subtask ids_delete remove_task_slot : tw_rw.

(** ** Invariants of the state machine, by rule induction *)

Section Invariants.
Implicit Types (ts : list Task) (t : Task) (i : Uuid).

Lemma lstep_ids_unique ts c ts' : lstep ts c ts' -> ids_unique ts -> ids_unique ts'.
Proof.
  unfold ids_unique.
  destruct 1 as [|?????|????????|???????|? ? ? [] ? ?|? ? ? [] ?|]; intros Hnd; autorewrite with tw_rw; try done.
  - by apply NoDup_snoc.
  - by apply NoDup_snoc.
  - eapply sublist_NoDup; [done|apply sublist_delete].
Qed.

Lemma step_ids_unique ts ts' : step ts ts' -> ids_unique ts -> ids_unique ts'.
Proof. intros [c Hc]. by eapply lstep_ids_unique. Qed.

Lemma lsteps_ids_unique ts cs ts' : lsteps ts cs ts' -> ids_unique ts -> ids_unique ts'.
Proof. induction 1; eauto using lstep_ids_unique. Qed.

(** C5: every state reachable from a store without duplicate ids has
    no duplicate ids. *)
Theorem reachable_ids_unique ts ts' :
  rtc step ts ts' -> ids_unique ts -> ids_unique ts'.
Proof. induction 1; eauto using step_ids_unique. Qed.

Lemma step_keeping_self_linked ts ts' i :
  step_keeping i ts ts' -> ids_unique ts -> self_linked_todo ts i -> self_linked_todo ts' i.
Proof.
  intros [[c Hstep] Hin] Hnd (t & Ht & <- & Htodo & Hself).
  destruct Hstep as [|ts j n d _|ts k p j n d _ _|ts ks kt s p _ _|ts k t' [] Hk Hcheck|ts k t' [] Hk|];
    try by exists t.
  - exists t. split_and!; [unfold Tasks.add_task; set_solver|done..].
  - destruct (push_if_elem ts t (id p) j Ht) as (t1 & ? & Hid & Hst & Hsub).
    exists t1. rewrite Hid, Hst. split_and!; [unfold Tasks.add_subtask, Tasks.add_task; set_solver|done|done|set_solver].
  - destruct (push_if_elem ts t (id p) (id s) Ht) as (t1 & ? & Hid & Hst & Hsub).
    exists t1. rewrite Hid, Hst. split_and!; [done|done|done|set_solver].
  - exists t. split_and!; [|done..]. apply mark_task_toggle_other; [done|].
    intros Heq. apply (self_linked_not_done ts t); [done..|].
    by rewrite Heq.
  - rewrite remove_task_slot in Hin |- *.
    destruct (elem_of_delete_cases ts k t Ht) as [?|Hkt]; [by exists t|].
    exfalso. rewrite ids_delete in Hin. revert Hin. apply NoDup_delete_lookup; [done|].
    unfold ids. by rewrite list_lookup_fmap, Hkt.
Qed.

(** C17: a [Todo] task that lists itself as a subtask stays [Todo], and
    self-linked, in every later state that still holds it: the gate of
    [toggle_task] can never pass for it. *)
Theorem self_linked_todo_stuck ts ts' i :
  rtc (step_keeping i) ts ts' -> ids_unique ts ->
  self_linked_todo ts i -> self_linked_todo ts' i.
Proof.
  induction 1 as [|ts1 ts2 ts3 [Hstep Hin] _ IH]; [done|].
  intros Hnd Hself. apply IH; [by eapply step_ids_unique|].
  by eapply step_keeping_self_linked.
Qed.
End Invariants.

(** ** The text of [display] *)

Section Display.

(** Inside the loop the subtask list is never empty, so the header is
    printed before every subtask that resolves. *)
Lemma display_loop_resolved ts t l :
  subtasks t <> [] ->
  (foldr (fun s acc => Tasks.display_subtask ts t s ++ acc) "" l =
  foldr (fun st acc =>
           (println "  Has the subtasks:" ++ println ("  > Sub Task: " ++ name st) ++
            println ("  > " ++ description st) ++
            println ("  > Status: " ++ status_debug (status st))) ++ acc)
    "" (omap (Tasks.get_from_id ts) l))%string.
Proof.
  intros Hne. induction l as [|s l IH]; [done|]. cbn [foldr omap list_omap]. rewrite IH.
  unfold Tasks.display_subtask at 1. rewrite bool_decide_false by done.
  by destruct (Tasks.get_from_id ts s).
Qed.

End Display.

(** ** Properties of the store *)

Section Properties.
Implicit Types (ts : list Task) (t : Task) (i : Uuid).

(** C1: [check_if_subtasks_done ts i] answers [true] exactly when [i]
    resolves and every one of its direct subtask ids resolves to a
    [Done] task; it answers [false] when, scanning the subtask list in
    order, a [Todo] subtask comes before any id that fails to resolve;
    and it panics ([unwrap] on [None]) when [i] does not resolve or a
    subtask id that fails to resolve comes first. *)
Theorem check_if_subtasks_done_spec ts i :
  match Tasks.check_if_subtasks_done ts i with
  | Ok true =>
      exists t, Tasks.get_from_id ts i = Some t /\ Forall (resolves_done ts) (subtasks t)
  | Ok false =>
      exists t pre s post st, Tasks.get_from_id ts i = Some t /\
        subtasks t = pre ++ s :: post /\ Forall (resolves_done ts) pre /\
        Tasks.get_from_id ts s = Some st /\ status st = Todo
  | Panic p =>
      p = UnwrapNone /\
      (Tasks.get_from_id ts i = None \/
       exists t pre s post, Tasks.get_from_id ts i = Some t /\
         subtasks t = pre ++ s :: post /\ Forall (resolves_done ts) pre /\
         Tasks.get_from_id ts s = None)
  end.
Proof.
  destruct (Tasks.check_if_subtasks_done ts i) as [[]|p] eqn:E.
  - by apply check_if_subtasks_done_true.
  - by apply check_if_subtasks_done_false.
  - by apply check_if_subtasks_done_panic.
Qed.

(** C2: deleting a task does not remove its id from the subtask lists
    of the other tasks.  If [p] (slot [kp]) lists the id of [c] (slot
    [kc]) and ids are unique, then after [remove_task] of slot [kc], [p]
    is still in the store with the same subtask list, and that id no
    longer resolves: a dangling reference. *)
Theorem delete_leaves_dangling ts kp kc p c :
  ids_unique ts -> ts !! kp = Some p -> ts !! kc = Some c -> id c ∈ subtasks p -> kp <> kc ->
  p ∈ Tasks.remove_task ts (TaskSlot kc) (id c) /\
  Tasks.get_from_id (Tasks.remove_task ts (TaskSlot kc) (id c)) (id c) = None.
Proof.
  intros Hnd Hp Hc _ Hne. rewrite remove_task_slot. split.
  - assert (p ∈ ts) as Hin by by eapply list_elem_of_lookup_2.
    destruct (elem_of_delete_cases ts kc p Hin) as [?|Hkc]; [done|].
    exfalso. apply Hne. by eapply (ids_unique_lookup ts kp kc p p).
  - apply get_from_id_None. rewrite ids_delete. apply NoDup_delete_lookup; [done|].
    unfold ids. by rewrite list_lookup_fmap, Hc.
Qed.

(** C18: [get_index_from_id] and the two lookups agree: when [i]
    resolves, [get_index_from_id] returns the slot that
    [get_from_id_mut] designates, and that slot holds the task
    [get_from_id] returns; when [i] does not resolve it panics
    ([unwrap] on [None]).  It never returns [None]. *)
Theorem get_index_from_id_spec ts i :
  match Tasks.get_index_from_id ts i with
  | Ok (Some k) =>
      Tasks.get_from_id_mut ts i = Some k /\
      exists t, ts !! k = Some t /\ Tasks.get_from_id ts i = Some t
  | Ok None => False
  | Panic p => p = UnwrapNone /\ i ∉ ids ts
  end.
Proof.
  unfold Tasks.get_index_from_id.
  pose proof (get_from_id_mut_lookup ts i) as Hmut.
  destruct (Tasks.get_from_id ts i) as [t|] eqn:Hget; simpl.
  - apply get_from_id_Some in Hget as Hin. destruct Hin as [_ ->].
    rewrite index_loop_mut.
    destruct (Tasks.get_from_id_mut ts i) as [k|]; simpl; [|done].
    destruct Hmut as [Hk _]. split; [done|]. exists t. by rewrite Hk.
  - split; [done|]. by apply get_from_id_None.
Qed.
End Properties.

(** ** Witnesses: the properties at concrete stores *)

Lemma delete_leaves_dangling_witness :
  task_a ∈ Tasks.remove_task sample_ab (TaskSlot 1) (id task_b) /\
  Tasks.get_from_id (Tasks.remove_task sample_ab (TaskSlot 1) (id task_b)) (id task_b) = None.
Proof. apply (delete_leaves_dangling sample_ab 0 1 task_a task_b); [by_eval|reflexivity|reflexivity|by_eval|by_eval]. Defined.

Lemma reachable_ids_unique_witness : ids_unique sample_ab.
Proof.
  apply (reachable_ids_unique [] sample_ab); [|by_eval].
  eapply rtc_l; [exists (CAdd "Write spec" "draft v1"); apply (LAdd [] (Uuid_from_u128 1)); by_eval|].
  eapply rtc_l.
  { exists (CAddSubtask 0 "Review" "").
    apply (LAddSubtask _ 0 (new_task (Uuid_from_u128 1) "Write spec" "draft v1") (Uuid_from_u128 2));
      [reflexivity|by_eval]. }
  apply rtc_refl.
Defined.

Lemma self_linked_todo_stuck_witness :
  self_linked_todo (Tasks.add_task sample_loop (new_task (Uuid_from_u128 4) "Other" "")) (Uuid_from_u128 3).
Proof.
  apply (self_linked_todo_stuck sample_loop _ (Uuid_from_u128 3)).
  - eapply rtc_l; [|apply rtc_refl]. split; [exists (CAdd "Other" ""); apply LAdd; by_eval|by_eval].
  - by_eval.
  - exists task_loop. split_and!; [by_eval|reflexivity|reflexivity|by_eval].
Defined.

(** C16: [display] prints the header "Has the subtasks:" inside its loop,
    once before every subtask that resolves, not once before the list: for
    any task [t] that [i] resolves to, the text is the three lines of [t]
    followed, for each subtask id of [t] that resolves (in order), by the
    header and the three lines of that subtask; ids that do not resolve
    print nothing.  A task with [k] resolving subtasks shows the header
    [k] times. *)
Theorem display_repeats_header ts i t :
  Tasks.get_from_id ts i = Some t ->
  Tasks.display ts i =
    Ok (println ("Task: " ++ name t) ++ println ("  " ++ description t) ++
        println ("  Status: " ++ status_debug (status t)) ++
        foldr (fun st acc =>
                 (println "  Has the subtasks:" ++ println ("  > Sub Task: " ++ name st) ++
                  println ("  > " ++ description st) ++
                  println ("  > Status: " ++ status_debug (status st))) ++ acc)
          "" (omap (Tasks.get_from_id ts) (subtasks t)) ++
        println "")%string.
Proof.
  intros Ht. unfold Tasks.display. rewrite Ht. simpl.
  destruct (subtasks t) as [|s l] eqn:Hs; [done|].
  by rewrite (display_loop_resolved ts t) by congruence.
Qed.

Lemma display_repeats_header_witness :
  Tasks.display sample_parent (Uuid_from_u128 4) =
    Ok (println "Task: Parent" ++ println "  " ++ println "  Status: Todo" ++
        ((println "  Has the subtasks:" ++ println "  > Sub Task: Write spec" ++
          println "  > draft v1" ++ println "  > Status: Todo") ++
         ((println "  Has the subtasks:" ++ println "  > Sub Task: Review" ++
           println "  > " ++ println "  > Status: Todo") ++ "")) ++ println "")%string.
Proof. apply (display_repeats_header sample_parent (Uuid_from_u128 4) task_p). reflexivity. Defined.
