(* ===== verification/Spec.v ===== *)
(** * The contract of the Task Store and the refinement of [impl Tasks]

    The specification (section 4.2) describes the store by its
    observable contract: a collection of tasks in insertion order, found
    by id, with [add_task], [link_subtask], [add_subtask],
    [toggle_status] (gated by [all_subtasks_done], where an id that does
    not resolve is skipped) and [delete_task] (which also removes the id
    from every subtask list).  Section 9 adds that a map from ids to tasks
    is enough.  [astore] is that abstract store: the ids in insertion
    order and a [gmap] from ids to tasks; the [a_] operations follow the
    specification's words.

    [abs] maps a concrete store ([list Task], the [Vec] of [Tasks]) to an
    abstract one; its map answers what [get_from_id] answers, the first
    task with that id.  [a_step] is the contract as a labelled relation,
    a label naming the operation and the ids passed to it; [label_of]
    turns a command of the loop ([cmd] of [Store.v]) into that request.
    [step_refines] states that every labelled store step is the
    contract step of its request, with one exception.  The theorems
    state, operation by operation, whether the method of [impl Tasks]
    implements its contract:
    [add_task], [make_subtask] and [add_subtask] do; [mark_task_toggle]
    does whenever [check_if_subtasks_done] answers (it panics on a
    dangling subtask where the contract skips it); [remove_task] does
    exactly when no remaining task lists the deleted id. *)
From S2P Require Import Prelude Uuid Task Store.
From stdpp Require Import base list gmap strings.

(** ** The abstract store and its operations *)

Record astore := AStore {
  a_order : list Uuid;
  a_tasks : gmap Uuid Task
}.

(** [add_task(name, description)]: a fresh id, a [Todo] task without
    subtasks, appended. *)
Definition a_add (i : Uuid) (n d : string) (m : astore) : astore :=
  AStore (a_order m ++ [i]) (<[i := new_task i n d]> (a_tasks m)).

(** [link_subtask(parent_id, child_id)]: appends the child id when the
    parent exists; no check on the child, duplicates allowed. *)
Definition a_link (p c : Uuid) (m : astore) : astore :=
  AStore (a_order m) (alter (fun t => push_subtask t c) p (a_tasks m)).

(** [add_subtask(parent_id, name, description)] = [add_task] then
    [link_subtask]. *)
Definition a_add_subtask (p i : Uuid) (n d : string) (m : astore) : astore :=
  a_link p i (a_add i n d m).

(** [all_subtasks_done(id)]: every subtask id that resolves is [Done]. *)
Definition a_all_subtasks_done (m : astore) (i : Uuid) : bool :=
  match a_tasks m !! i with
  | Some t =>
      forallb (fun s => match a_tasks m !! s with
                        | Some st => bool_decide (status st = Done)
                        | None => true
                        end) (subtasks t)
  | None => false
  end.

(** [toggle_status(id)]: flips the status when the gate holds, and says
    whether it did. *)
Definition a_toggle (i : Uuid) (m : astore) : bool * astore :=
  if a_all_subtasks_done m i
  then (true, AStore (a_order m) (alter (fun t => set_status t (flip_status (status t))) i (a_tasks m)))
  else (false, m).

(** [delete_task(id)]: removes the task and the id from every subtask
    list. *)
Definition a_delete (i : Uuid) (m : astore) : astore :=
  AStore (filter (fun j => j <> i) (a_order m))
    ((fun t => set_subtasks t (filter (fun j => j <> i) (subtasks t))) <$> delete i (a_tasks m)).

(** ** The abstraction of a concrete store *)

Definition abs (ts : list Task) : astore :=
  AStore (ids ts) (list_to_map ((fun t => (id t, t)) <$> ts)).

(** The contract's operations, each named by what it is asked: the
    label carries the ids the caller passes (the new id of an added task
    is the operation's own choice, fresh).  [AToggle] is the contract's
    [toggle_status], which may decline; [ANoop] changes nothing. *)
Inductive alabel :=
| ANoop
| AAdd (name description : string)
| AAddSubtask (parent : Uuid) (name description : string)
| ALink (parent child : Uuid)
| AToggle (i : Uuid)
| ADelete (i : Uuid).

(** The contract as a labelled step relation, with the preconditions the
    Interaction Layer guarantees (the selected tasks exist, new ids are
    fresh). *)
Inductive a_step : astore -> alabel -> astore -> Prop :=
| AStepNoop m : a_step m ANoop m
| AStepAdd m i n d :
    a_tasks m !! i = None -> a_step m (AAdd n d) (a_add i n d m)
| AStepAddSubtask m p i n d :
    is_Some (a_tasks m !! p) -> a_tasks m !! i = None -> a_step m (AAddSubtask p n d) (a_add_subtask p i n d m)
| AStepLink m p c :
    is_Some (a_tasks m !! p) -> is_Some (a_tasks m !! c) -> a_step m (ALink p c) (a_link p c m)
| AStepToggle m i b m' :
    is_Some (a_tasks m !! i) -> a_toggle i m = (b, m') -> a_step m (AToggle i) m'
| AStepDelete m i :
    is_Some (a_tasks m !! i) -> a_step m (ADelete i) (a_delete i m).

(** What a command of the loop asks of the contract: the handlers turn
    the selected slots into ids ([select(..).unwrap().id]):
    [make_subtask] links the first selection under the second,
    [toggle_task] toggles the selection, a confirmed [remove_task]
    deletes it. *)
Definition label_of (ts : list Task) (c : cmd) : alabel :=
  match c with
  | CPick | CDisplay => ANoop
  | CAdd n d => AAdd n d
  | CAddSubtask k n d =>
      match ts !! k with Some p => AAddSubtask (id p) n d | None => ANoop end
  | CMakeSubtask ks kt =>
      match ts !! ks, ts !! kt with
      | Some s, Some t => ALink (id t) (id s)
      | _, _ => ANoop
      end
  | CToggle k => match ts !! k with Some t => AToggle (id t) | None => ANoop end
  | CDelete k yes =>
      match ts !! k with Some t => if yes then ADelete (id t) else ANoop | None => ANoop end
  end.

(** A concrete delete the contract does not allow: the deleted task is
    still listed by a task that remains. *)
Definition delete_leaving_refs (ts ts' : list Task) : Prop :=
  exists k t x, ts !! k = Some t /\ x ∈ delete k ts /\ id t ∈ subtasks x /\
    ts' = Tasks.remove_task ts (TaskSlot k) (id t).

(** ** The abstraction answers [get_from_id] *)

Section Abstraction.
Implicit Types (ts : list Task) (t : Task) (i : Uuid).

Lemma abs_lookup ts i : a_tasks (abs ts) !! i = Tasks.get_from_id ts i.
Proof.
  induction ts as [|t ts IH]; [done|]. cbn [abs a_tasks fmap list_fmap list_to_map foldr fst snd] in *.
  rewrite lookup_insert, IH. simpl. by case_decide.
Qed.

(** Two stores with the same ids in the same order that answer the same
    lookups have the same abstraction. *)
Lemma abs_ext ts m :
  ids ts = a_order m -> (forall j, Tasks.get_from_id ts j = a_tasks m !! j) -> abs ts = m.
Proof.
  destruct m as [o tm]. intros Ho Hl. unfold abs. simpl in *. f_equal; [done|].
  apply map_eq. intros j. rewrite <- Hl. apply (abs_lookup ts j).
Qed.

(** Updating every task with id [i] is [alter] at [i]. *)
Lemma abs_map_if (g : Task -> Task) i ts :
  keeps_id g ->
  a_tasks (abs (map (fun t => if decide (id t = i) then g t else t) ts)) = alter g i (a_tasks (abs ts)).
Proof.
  intros Hg. apply map_eq. intros j. rewrite abs_lookup, get_from_id_map, lookup_alter, !abs_lookup.
  - destruct (decide (i = j)) as [<-|Hij]; destruct (Tasks.get_from_id ts _) as [t|] eqn:E; simpl; try done;
      apply get_from_id_Some in E as [_ Ht]; f_equal.
    + by rewrite decide_True.
    + rewrite decide_False by congruence. done.
  - intros t. simpl. case_decide; [apply Hg|done].
Qed.

End Abstraction.

(** ** The gate of [toggle_task] against [all_subtasks_done] *)

Section Gate.
Implicit Types (ts : list Task) (i : Uuid).

(** Whenever [check_if_subtasks_done] answers, it answers what the
    contract's [all_subtasks_done] answers. *)
Lemma check_agrees_with_contract ts i b :
  Tasks.check_if_subtasks_done ts i = Ok b -> a_all_subtasks_done (abs ts) i = b.
Proof.
  unfold a_all_subtasks_done. rewrite abs_lookup. destruct b.
  - intros (t & -> & Hall)%check_if_subtasks_done_true. apply forallb_forall. intros s Hs.
    rewrite abs_lookup. rewrite Forall_forall in Hall.
    destruct (Hall s (proj2 (list_elem_of_In _ _) Hs)) as (st & -> & Hst). by apply bool_decide_eq_true.
  - intros (t & pre & s & post & st & -> & Hsub & _ & Hs & Hst)%check_if_subtasks_done_false.
    rewrite Hsub, forallb_app. cbn [forallb]. rewrite abs_lookup, Hs, Hst. by rewrite andb_false_r.
Qed.

End Gate.

(** ** Deleting the task at a slot *)

Section Delete.
Context (ts : list Task) (k : nat) (t : Task).
Hypothesis Hnd : ids_unique ts.
Hypothesis Hk : ts !! k = Some t.

Lemma ids_lookup_slot : ids ts !! k = Some (id t).
Proof. unfold ids. by rewrite list_lookup_fmap, Hk. Qed.

Lemma delete_ids : ids (delete k ts) = filter (fun j => j <> id t) (ids ts).
Proof. rewrite ids_delete. apply NoDup_delete_filter; [done|apply ids_lookup_slot]. Qed.

Lemma delete_gone : Tasks.get_from_id (delete k ts) (id t) = None.
Proof. apply get_from_id_None. rewrite ids_delete. apply NoDup_delete_lookup; [done|apply ids_lookup_slot]. Qed.

Lemma delete_unique : ids_unique (delete k ts).
Proof. unfold ids_unique. rewrite ids_delete. eapply sublist_NoDup; [done|apply sublist_delete]. Qed.

(** The contract's [delete_task] on the abstraction: the tasks of the
    deleted slot's store, each with the id filtered out of its subtasks. *)
Lemma a_delete_lookup j :
  a_tasks (a_delete (id t) (abs ts)) !! j =
    (fun x => set_subtasks x (filter (fun s => s <> id t) (subtasks x))) <$>
      Tasks.get_from_id (delete k ts) j.
Proof.
  cbn [a_delete a_tasks]. rewrite lookup_fmap, lookup_delete, abs_lookup. case_decide as Hj.
  - by rewrite <- Hj, delete_gone.
  - by rewrite (get_from_id_delete ts k t) by auto.
Qed.

End Delete.

(** ** Each method against its contract *)

Section Refinement.
Implicit Types (ts : list Task) (t : Task) (i p c : Uuid).

Lemma slot_in_ids ts k t : ts !! k = Some t -> id t ∈ ids ts.
Proof. intros Hk. apply list_elem_of_fmap_2. by eapply list_elem_of_lookup_2. Qed.

Lemma slot_resolves ts k t : ts !! k = Some t -> is_Some (a_tasks (abs ts) !! id t).
Proof.
  intros Hk. rewrite abs_lookup. destruct (Tasks.get_from_id ts (id t)) eqn:E; [done|].
  apply get_from_id_None in E. contradict E. by eapply slot_in_ids.
Qed.

Lemma abs_add_task ts i n d : i ∉ ids ts -> abs (Tasks.add_task ts (new_task i n d)) = a_add i n d (abs ts).
Proof.
  intros Hi. apply abs_ext; cbn [a_add a_order a_tasks]; [by rewrite ids_add_task|].
  intros j. unfold Tasks.add_task. rewrite get_from_id_app, lookup_insert, abs_lookup.
  destruct (Tasks.get_from_id ts j) as [x|] eqn:E; [|simpl; by case_decide].
  apply get_from_id_Some in E as [Hx <-]. rewrite decide_False; [done|].
  intros ->. apply Hi. by apply list_elem_of_fmap_2.
Qed.

Lemma abs_make_subtask ts p c : abs (Tasks.make_subtask ts p c) = a_link p c (abs ts).
Proof.
  apply abs_ext; [by rewrite ids_make_subtask|]. intros j. rewrite <- abs_lookup.
  unfold Tasks.make_subtask. cbn [a_link a_tasks]. by rewrite abs_map_if.
Qed.

Lemma abs_add_subtask ts p i n d :
  i ∉ ids ts -> p <> i -> abs (Tasks.add_subtask ts p (new_task i n d)) = a_add_subtask p i n d (abs ts).
Proof.
  intros Hi Hp. change (Tasks.add_subtask ts p (new_task i n d))
    with (Tasks.add_task (Tasks.make_subtask ts p i) (new_task i n d)).
  rewrite abs_add_task by (by rewrite ids_make_subtask). rewrite abs_make_subtask.
  unfold a_add_subtask, a_add, a_link. simpl. by rewrite alter_insert_ne by done.
Qed.

Lemma abs_mark_task_toggle ts i :
  abs (Tasks.mark_task_toggle ts i) =
    AStore (a_order (abs ts)) (alter (fun t => set_status t (flip_status (status t))) i (a_tasks (abs ts))).
Proof.
  apply abs_ext; [by rewrite ids_mark_task_toggle|]. intros j. rewrite <- abs_lookup.
  unfold Tasks.mark_task_toggle. cbn [a_tasks]. by rewrite abs_map_if.
Qed.

(** The toggle of [toggle_task], whichever way the gate answers, is the
    contract's [toggle_status]. *)
Lemma toggle_agrees ts i b :
  Tasks.check_if_subtasks_done ts i = Ok b ->
  a_toggle i (abs ts) = (b, abs (if b then Tasks.mark_task_toggle ts i else ts)).
Proof.
  intros Hc. unfold a_toggle. rewrite (check_agrees_with_contract ts i b Hc).
  destruct b; [by rewrite abs_mark_task_toggle|done].
Qed.

(** Deleting a slot that no remaining task lists is the contract's delete. *)
Lemma abs_remove_task_unlisted ts k t :
  ids_unique ts -> ts !! k = Some t -> (forall x, x ∈ delete k ts -> id t ∉ subtasks x) ->
  abs (Tasks.remove_task ts (TaskSlot k) (id t)) = a_delete (id t) (abs ts).
Proof.
  intros Hnd Hk Hno. rewrite remove_task_slot. apply abs_ext; [by apply delete_ids|].
  intros j. rewrite (a_delete_lookup ts k t Hnd Hk).
  destruct (Tasks.get_from_id (delete k ts) j) as [x|] eqn:E; [|done]. simpl. f_equal.
  apply get_from_id_Some in E as [Hx _]. rewrite list_filter_id; [symmetry; apply set_subtasks_same|].
  apply Forall_forall. intros s Hs ->. exact (Hno x Hx Hs).
Qed.

(** If the abstraction after deleting a slot is the contract's delete,
    no remaining task lists the deleted id. *)
Lemma abs_remove_task_listed ts k t :
  ids_unique ts -> ts !! k = Some t ->
  abs (Tasks.remove_task ts (TaskSlot k) (id t)) = a_delete (id t) (abs ts) ->
  forall x, x ∈ delete k ts -> id t ∉ subtasks x.
Proof.
  intros Hnd Hk Heq x Hx Hin. rewrite remove_task_slot in Heq.
  assert (Hget : Tasks.get_from_id (delete k ts) (id x) = Some x)
    by (apply get_from_id_unique; [apply (delete_unique ts k Hnd)|done|done]).
  pose proof (f_equal (fun m => a_tasks m !! id x) Heq) as Hl. cbv beta in Hl.
  rewrite abs_lookup, (a_delete_lookup ts k t Hnd Hk), Hget in Hl. simpl in Hl.
  injection Hl as Hx'. apply (f_equal subtasks) in Hx'. simpl in Hx'.
  by apply (list_filter_id_elem (fun s => s <> id t) (subtasks x) (id t)).
Qed.

End Refinement.

(** ** Properties *)

(** C4: The store refines its contract, command by command.  From a
    store without duplicate ids, every labelled store step is the
    contract's step for the same request ([label_of]) on the abstraction:
    [add_task] with a fresh id is [add_task], [add_subtask] is
    [add_subtask] under the selected parent, [make_subtask] links the
    first selected task under the second, the toggle is
    [toggle_status] (declined exactly when the contract declines), a
    declined delete and [Display] change nothing.  The one exception is a
    confirmed delete of a task that a remaining task still lists, which
    the contract's [delete_task] would unlink. *)
Theorem step_refines ts c ts' :
  ids_unique ts -> lstep ts c ts' ->
  a_step (abs ts) (label_of ts c) (abs ts') \/ delete_leaving_refs ts ts'.
Proof.
  intros Hnd Hstep.
  destruct Hstep as [ts|ts i n d Hi|ts k p i n d Hp Hi|ts ks kt s t Hs Ht|ts k t b Hk Hcheck|ts k t [] Hk|ts];
    cbn [label_of]; try rewrite Hp; try rewrite Hs, Ht; try rewrite Hk; try (left; by constructor).
  - left. rewrite abs_add_task by done. apply AStepAdd. rewrite abs_lookup. by apply get_from_id_None.
  - left. rewrite abs_add_subtask; [|done|intros Heq; apply Hi; rewrite <- Heq; by eapply slot_in_ids].
    apply AStepAddSubtask; [by eapply slot_resolves|]. rewrite abs_lookup. by apply get_from_id_None.
  - left. rewrite abs_make_subtask. apply AStepLink; by eapply slot_resolves.
  - left. apply (AStepToggle _ (id t) b); [by eapply slot_resolves|]. by apply toggle_agrees.
  - destruct (decide (Forall (fun x => id t ∉ subtasks x) (delete k ts))) as [Hall|Hsome].
    + left. rewrite abs_remove_task_unlisted; [|done|done|by apply Forall_forall].
      apply AStepDelete. by eapply slot_resolves.
    + right. apply not_Forall_Exists in Hsome; [|apply _]. apply Exists_exists in Hsome as (x & Hx & Hin).
      exists k, t, x. split_and!; [done|done|by apply dec_stable|done].
Qed.

Lemma step_refines_witness :
  a_step (abs sample_ab) (label_of sample_ab (CMakeSubtask 0 1))
    (abs (Tasks.make_subtask sample_ab (id task_b) (id task_a))) \/
  delete_leaving_refs sample_ab (Tasks.make_subtask sample_ab (id task_b) (id task_a)).
Proof.
  apply step_refines; [by_eval|]. apply (LMakeSubtask sample_ab 0 1 task_a task_b); reflexivity.
Defined.

(** C8: [toggle_task]'s gate is the contract's [all_subtasks_done]
    whenever [check_if_subtasks_done] answers: the toggle of the code and
    the contract's [toggle_status] agree on the answer and on the store
    (the code panics where the contract skips a dangling subtask). *)
Theorem toggle_refines ts i b :
  Tasks.check_if_subtasks_done ts i = Ok b ->
  a_toggle i (abs ts) = (b, abs (if b then Tasks.mark_task_toggle ts i else ts)).
Proof. apply toggle_agrees. Qed.

Lemma toggle_refines_witness :
  a_toggle (id task_a) (abs sample_ab) = (false, abs sample_ab).
Proof. apply (toggle_refines sample_ab (id task_a) false). reflexivity. Defined.

(** C9: [remove_task] on a slot implements the contract's [delete_task]
    exactly when no remaining task lists the deleted id. *)
Theorem remove_task_refines_iff ts k t :
  ids_unique ts -> ts !! k = Some t ->
  abs (Tasks.remove_task ts (TaskSlot k) (id t)) = a_delete (id t) (abs ts) <->
  (forall x, x ∈ delete k ts -> id t ∉ subtasks x).
Proof.
  intros Hnd Hk. split; [by apply abs_remove_task_listed|by apply abs_remove_task_unlisted].
Qed.

Lemma remove_task_refines_iff_witness :
  abs (Tasks.remove_task sample_ab (TaskSlot 1) (id task_b)) <> a_delete (id task_b) (abs sample_ab).
Proof.
  rewrite (remove_task_refines_iff sample_ab 1 task_b); [|by_eval|reflexivity].
  intros Hno. apply (Hno task_a); [left|left].
Defined.
