(* ===== verification/Json.v ===== *)
(** * serde_json: the JSON text that [save] writes and [load] reads

    [save] calls [serde_json::to_string_pretty] and [load] calls
    [serde_json::from_reader].  This file models the part of serde_json
    they use: a JSON value [json]; the pretty printer ([PrettyFormatter]
    with its two-space indent, [format_escaped_str]); and the parser
    ([Deserializer]: whitespace, literals, numbers, strings with their
    escapes, arrays, objects, and the final check that only whitespace
    follows the value).  The typed layer (what serde derives for [Task])
    is in [Serde.v]; here a document is parsed into a [json] value, which
    gives the same [Ok]/[Err] answer as serde_json's typed, streaming
    parser.

    Not modelled: UTF-8 validation of the bytes of a string (a [string]
    here is a byte string) and the recursion limit of 128 nested
    containers. *)
From S2P Require Import Prelude.
From stdpp Require Import base list strings.
From Stdlib Require Import ZArith Lia Ascii.
From Stdlib Require String.

Open Scope string_scope.

(** ** Values *)

Unset Elimination Schemes.
Inductive json :=
| JNull
| JBool (b : bool)
| JNumber (lexeme : string)
| JString (s : string)
| JArray (xs : list json)
| JObject (members : list (string * json)).
Set Elimination Schemes.

(** Induction over the nested lists of arrays and objects. *)
Definition json_ind (P : json -> Prop)
  (fnull : P JNull) (fbool : forall b, P (JBool b)) (fnum : forall l, P (JNumber l))
  (fstr : forall s, P (JString s))
  (farr : forall xs, Forall P xs -> P (JArray xs))
  (fobj : forall ms, Forall (fun m => P m.2) ms -> P (JObject ms)) :
  forall v, P v :=
  fix F v :=
    match v with
    | JNull => fnull
    | JBool b => fbool b
    | JNumber l => fnum l
    | JString s => fstr s
    | JArray xs =>
        farr xs ((fix G xs : Forall P xs :=
                    match xs with
                    | [] => Forall_nil_2 _
                    | x :: xs' => Forall_cons_2 _ x xs' (F x) (G xs')
                    end) xs)
    | JObject ms =>
        fobj ms ((fix G ms : Forall (fun m => P m.2) ms :=
                    match ms with
                    | [] => Forall_nil_2 _
                    | m :: ms' => Forall_cons_2 _ m ms' (F m.2) (G ms')
                    end) ms)
    end.

(** ** Characters *)

Definition char_quote : ascii := ascii_of_nat 34.
Definition char_backslash : ascii := ascii_of_nat 92.

(** [HEX_DIGITS] of serde_json's escaper: lowercase. *)
Definition hex_digits : string := "0123456789abcdef".

Definition hex_digit (n : nat) : ascii :=
  match String.get n hex_digits with
  | Some c => c
  | None => "0"%char
  end.

(** ** The printer *)

(** [format_escaped_str_contents]: the [ESCAPE] table of serde_json.
    The control characters [0x08], [0x09], [0x0a], [0x0c], [0x0d] have a
    short escape, the other bytes below [0x20] are written [\u00XX]; the
    quote and the backslash are escaped; every other byte is copied. *)
Definition escape_char (c : ascii) : string :=
  let n := nat_of_ascii c in
  if Nat.eqb n 8 then String char_backslash "b"
  else if Nat.eqb n 9 then String char_backslash "t"
  else if Nat.eqb n 10 then String char_backslash "n"
  else if Nat.eqb n 12 then String char_backslash "f"
  else if Nat.eqb n 13 then String char_backslash "r"
  else if Nat.ltb n 32 then
    String char_backslash ("u00" ++ String (hex_digit (n / 16)) (String (hex_digit (n mod 16)) ""))
  else if Nat.eqb n 34 then String char_backslash (String char_quote "")
  else if Nat.eqb n 92 then String char_backslash (String char_backslash "")
  else String c "".

Fixpoint escape_str (s : string) : string :=
  match s with
  | EmptyString => ""
  | String c s' => escape_char c ++ escape_str s'
  end.

(** [format_escaped_str]: the escaped bytes between quotes. *)
Definition quoted (s : string) : string :=
  String char_quote (escape_str s ++ String char_quote "").

(** [PrettyFormatter]'s indentation: [indent] ("  ") written [n] times. *)
Fixpoint indentation (n : nat) : string :=
  match n with
  | O => ""
  | S n' => "  " ++ indentation n'
  end.

(** The pretty printer at nesting level [n]: an array or object that is
    not empty has each element on a line of its own, indented one level
    deeper, and its closing bracket on a line at level [n]; an empty one
    is [[]] or [{}]. *)
Fixpoint to_pretty (n : nat) (v : json) : string :=
  match v with
  | JNull => "null"
  | JBool true => "true"
  | JBool false => "false"
  | JNumber l => l
  | JString s => quoted s
  | JArray [] => "[]"
  | JArray (x :: xs) =>
      "[" ++ newline ++ indentation (S n) ++ to_pretty (S n) x ++
      foldr (fun y acc => "," ++ newline ++ indentation (S n) ++ to_pretty (S n) y ++ acc) "" xs ++
      newline ++ indentation n ++ "]"
  | JObject [] => "{}"
  | JObject ((k, x) :: ms) =>
      "{" ++ newline ++ indentation (S n) ++ quoted k ++ ": " ++ to_pretty (S n) x ++
      foldr (fun m acc =>
               "," ++ newline ++ indentation (S n) ++ quoted m.1 ++ ": " ++ to_pretty (S n) m.2 ++ acc)
        "" ms ++
      newline ++ indentation n ++ "}"
  end.

(** [serde_json::to_string_pretty] of a value. *)
Definition to_string_pretty (v : json) : string := to_pretty 0 v.

(** ** The parser *)

(** serde_json's whitespace: space, line feed, tab, carriage return. *)
Definition is_ws (c : ascii) : bool :=
  let n := nat_of_ascii c in Nat.eqb n 32 || Nat.eqb n 10 || Nat.eqb n 9 || Nat.eqb n 13.

(** [parse_whitespace]: drop the whitespace at the front. *)
Fixpoint skip_ws (s : string) : string :=
  match s with
  | EmptyString => EmptyString
  | String c s' => if is_ws c then skip_ws s' else s
  end.

Definition is_digit (c : ascii) : bool :=
  let n := nat_of_ascii c in Nat.leb 48 n && Nat.leb n 57.

(** [decode_hex_val]: the value of a hex digit, either case. *)
Definition hex_val (c : ascii) : option nat :=
  let n := nat_of_ascii c in
  if Nat.leb 48 n && Nat.leb n 57 then Some (n - 48)
  else if Nat.leb 97 n && Nat.leb n 102 then Some (n - 87)
  else if Nat.leb 65 n && Nat.leb n 70 then Some (n - 55)
  else None.

(** [decode_hex_escape]: four hex digits. *)
Definition hex4 (a b c d : ascii) : option nat :=
  match hex_val a, hex_val b, hex_val c, hex_val d with
  | Some x1, Some x2, Some x3, Some x4 => Some (((x1 * 16 + x2) * 16 + x3) * 16 + x4)
  | _, _, _, _ => None
  end.

(** [char::encode_utf8] of a code point. *)
Definition encode_utf8 (n : nat) : string :=
  let b := ascii_of_nat in
  if Nat.ltb n 128 then String (b n) ""
  else if Nat.ltb n 2048 then
    String (b (192 + n / 64)) (String (b (128 + n mod 64)) "")
  else if Nat.ltb n 65536 then
    String (b (224 + n / 4096)) (String (b (128 + (n / 64) mod 64)) (String (b (128 + n mod 64)) ""))
  else
    String (b (240 + n / 262144)) (String (b (128 + (n / 4096) mod 64))
      (String (b (128 + (n / 64) mod 64)) (String (b (128 + n mod 64)) ""))).

Definition is_low_surrogate (n : nat) : bool := Nat.leb 56320 n && Nat.leb n 57343.
Definition is_high_surrogate (n : nat) : bool := Nat.leb 55296 n && Nat.leb n 56319.

(** The single-character escapes of [parse_escape]. *)
Definition simple_escape (e : ascii) : option ascii :=
  let n := nat_of_ascii e in
  if Nat.eqb n 34 then Some char_quote
  else if Nat.eqb n 92 then Some char_backslash
  else if Nat.eqb n 47 then Some "/"%char
  else if Nat.eqb n 98 then Some (ascii_of_nat 8)
  else if Nat.eqb n 102 then Some (ascii_of_nat 12)
  else if Nat.eqb n 110 then Some (ascii_of_nat 10)
  else if Nat.eqb n 114 then Some (ascii_of_nat 13)
  else if Nat.eqb n 116 then Some (ascii_of_nat 9)
  else None.

(** [parse_str] after the opening quote: the unescaped bytes and what
    follows the closing quote.  Errors: end of input, a control byte,
    an unknown escape, a bad [\u] escape or a lone surrogate. *)
Fixpoint parse_str_body (s : string) : option (string * string) :=
  match s with
  | EmptyString => None
  | String c s' =>
      if Ascii.eqb c char_quote then Some ("", s')
      else if Ascii.eqb c char_backslash then
        match s' with
        | EmptyString => None
        | String e s'' =>
            if Ascii.eqb e "u"%char then
              match s'' with
              | String h1 (String h2 (String h3 (String h4 r))) =>
                  match hex4 h1 h2 h3 h4 with
                  | None => None
                  | Some n =>
                      if is_low_surrogate n then None
                      else if is_high_surrogate n then
                        match r with
                        | String b1 (String u1 (String g1 (String g2 (String g3 (String g4 r'))))) =>
                            if Ascii.eqb b1 char_backslash && Ascii.eqb u1 "u"%char then
                              match hex4 g1 g2 g3 g4 with
                              | Some n2 =>
                                  if is_low_surrogate n2 then
                                    match parse_str_body r' with
                                    | Some (x, rest) =>
                                        Some (encode_utf8 ((n - 55296) * 1024 + (n2 - 56320) + 65536) ++ x, rest)
                                    | None => None
                                    end
                                  else None
                              | None => None
                              end
                            else None
                        | _ => None
                        end
                      else
                        match parse_str_body r with
                        | Some (x, rest) => Some (encode_utf8 n ++ x, rest)
                        | None => None
                        end
                  end
              | _ => None
              end
            else
              match simple_escape e with
              | Some c' =>
                  match parse_str_body s'' with
                  | Some (x, rest) => Some (String c' x, rest)
                  | None => None
                  end
              | None => None
              end
        end
      else if Nat.ltb (nat_of_ascii c) 32 then None
      else
        match parse_str_body s' with
        | Some (x, rest) => Some (String c x, rest)
        | None => None
        end
  end.

(** The leading digits of [s] and the rest. *)
Fixpoint take_digits (s : string) : string * string :=
  match s with
  | String c s' =>
      if is_digit c then let '(ds, r) := take_digits s' in (String c ds, r) else ("", s)
  | EmptyString => ("", "")
  end.

(** The optional exponent: [e] or [E], an optional sign, digits. *)
Definition parse_exponent (lex : string) (s : string) : option (string * string) :=
  match s with
  | String e r =>
      if Ascii.eqb e "e"%char || Ascii.eqb e "E"%char then
        let '(sign, r1) :=
          match r with
          | String c r' => if Ascii.eqb c "+"%char || Ascii.eqb c "-"%char then (String c "", r') else ("", r)
          | EmptyString => ("", r)
          end in
        let '(ds, r2) := take_digits r1 in
        if String.eqb ds "" then None else Some (lex ++ String e (sign ++ ds), r2)
      else Some (lex, s)
  | EmptyString => Some (lex, s)
  end.

(** The optional fraction: a dot and digits. *)
Definition parse_fraction (lex : string) (s : string) : option (string * string) :=
  match s with
  | String d r =>
      if Ascii.eqb d "."%char then
        let '(ds, r1) := take_digits r in
        if String.eqb ds "" then None else parse_exponent (lex ++ "." ++ ds) r1
      else parse_exponent lex s
  | EmptyString => Some (lex, s)
  end.

(** [parse_any_number] (as [ignore_integer], [ignore_decimal],
    [ignore_exponent] check it): an optional minus, [0] or a nonzero
    digit and digits, a fraction, an exponent; the value is kept as its
    text. *)
Definition parse_number (s : string) : option (string * string) :=
  let '(sign, s1) :=
    match s with
    | String c r => if Ascii.eqb c "-"%char then ("-", r) else ("", s)
    | EmptyString => ("", s)
    end in
  match s1 with
  | String d r =>
      if Ascii.eqb d "0"%char then
        match r with
        | String d' _ => if is_digit d' then None else parse_fraction (sign ++ "0") r
        | EmptyString => parse_fraction (sign ++ "0") r
        end
      else if is_digit d then
        let '(ds, r1) := take_digits r in parse_fraction (sign ++ String d ds) r1
      else None
  | EmptyString => None
  end.

(** [parse_value] with its array and object loops.  [fuel] bounds the
    depth of calls; [from_str] gives twice the length of the input plus
    one, which every call chain fits in. *)
Fixpoint parse_value (fuel : nat) (s : string) {struct fuel} : option (json * string) :=
  match fuel with
  | O => None
  | S f =>
      match skip_ws s with
      | EmptyString => None
      | String c r =>
          if Ascii.eqb c "n"%char then
            match r with
            | String "u" (String "l" (String "l" r')) => Some (JNull, r')
            | _ => None
            end
          else if Ascii.eqb c "t"%char then
            match r with
            | String "r" (String "u" (String "e" r')) => Some (JBool true, r')
            | _ => None
            end
          else if Ascii.eqb c "f"%char then
            match r with
            | String "a" (String "l" (String "s" (String "e" r'))) => Some (JBool false, r')
            | _ => None
            end
          else if Ascii.eqb c char_quote then
            match parse_str_body r with
            | Some (x, r') => Some (JString x, r')
            | None => None
            end
          else if Ascii.eqb c "["%char then
            match skip_ws r with
            | String d r' =>
                if Ascii.eqb d "]"%char then Some (JArray [], r') else parse_elems f (String d r') []
            | EmptyString => None
            end
          else if Ascii.eqb c "{"%char then
            match skip_ws r with
            | String d r' =>
                if Ascii.eqb d "}"%char then Some (JObject [], r') else parse_members f (String d r') []
            | EmptyString => None
            end
          else if Ascii.eqb c "-"%char || is_digit c then
            match parse_number (String c r) with
            | Some (l, r') => Some (JNumber l, r')
            | None => None
            end
          else None
      end
  end
(** After [[] or [,]: a value, then [,] and more, or [\]]. *)
with parse_elems (fuel : nat) (s : string) (acc : list json) {struct fuel} : option (json * string) :=
  match fuel with
  | O => None
  | S f =>
      match parse_value f s with
      | None => None
      | Some (v, r) =>
          match skip_ws r with
          | String "," r' => parse_elems f r' (acc ++ [v])
          | String "]" r' => Some (JArray (acc ++ [v]), r')
          | _ => None
          end
      end
  end
(** After [{] or [,]: a string key, [:], a value, then [,] and more, or
    [}]. *)
with parse_members (fuel : nat) (s : string) (acc : list (string * json)) {struct fuel} :
    option (json * string) :=
  match fuel with
  | O => None
  | S f =>
      match skip_ws s with
      | String c r =>
          if Ascii.eqb c char_quote then
            match parse_str_body r with
            | None => None
            | Some (k, r1) =>
                match skip_ws r1 with
                | String ":" r2 =>
                    match parse_value f r2 with
                    | None => None
                    | Some (v, r3) =>
                        match skip_ws r3 with
                        | String "," r4 => parse_members f r4 (acc ++ [(k, v)])
                        | String "}" r4 => Some (JObject (acc ++ [(k, v)]), r4)
                        | _ => None
                        end
                    end
                | _ => None
                end
            end
          else None
      | EmptyString => None
      end
  end.

(** [serde_json::from_reader] at the JSON level: one value, then only
    whitespace ([Deserializer::end]). *)
Definition from_str (s : string) : option json :=
  match parse_value (2 * String.length s + 1) s with
  | Some (v, rest) => if String.eqb (skip_ws rest) "" then Some v else None
  | None => None
  end.

(** ** Measures used by the round-trip proof *)

(** Values without numbers: the documents [save] writes have none (ids,
    names and statuses are strings), and a number's text is kept as it
    was read rather than re-printed. *)
Fixpoint json_nonum (v : json) : bool :=
  match v with
  | JNumber _ => false
  | JArray xs => forallb json_nonum xs
  | JObject ms => forallb (fun m => json_nonum m.2) ms
  | _ => true
  end.

(** The fuel [parse_value] needs for [v]: one unit per call of
    [parse_value], [parse_elems] or [parse_members] on the deepest path. *)
Fixpoint req (v : json) : nat :=
  match v with
  | JArray xs => S (foldr (fun x acc => S (Nat.max (req x) acc)) 0 xs)
  | JObject ms => S (foldr (fun m acc => S (Nat.max (req m.2) acc)) 0 ms)
  | _ => 1
  end.

Definition pretty_ok (v : json) : Prop :=
  json_nonum v = true -> forall n f rest, req v <= f -> parse_value f (to_pretty n v ++ rest) = Some (v, rest).

Definition len_ok (v : json) : Prop := forall n, req v <= S (String.length (to_pretty n v)).

#[local] Arguments String.append : simpl nomatch.

(** ** Layout: what the parser skips of the printer's indentation *)

Section Layout.
Lemma skip_ws_indent n s : skip_ws (indentation n ++ s) = skip_ws s.
Proof. induction n; simpl; auto. Qed.

Lemma skip_ws_layout n s : skip_ws (newline ++ indentation n ++ s) = skip_ws s.
Proof. simpl. apply skip_ws_indent. Qed.

Lemma escape_char_parse c rest :
  parse_str_body (escape_char c ++ rest) =
  match parse_str_body rest with Some (x, r) => Some (String c x, r) | None => None end.
Proof. destruct c as [[] [] [] [] [] [] [] []]; reflexivity. Qed.

Lemma parse_str_body_escape s rest :
  parse_str_body (escape_str s ++ String char_quote rest) = Some (s, rest).
Proof.
  induction s as [|c s IH]; [reflexivity|]. simpl.
  rewrite string_app_assoc, escape_char_parse, IH. reflexivity.
Qed.

Lemma pretty_head n v :
  json_nonum v = true ->
  exists c r, to_pretty n v = String c r /\ is_ws c = false /\
    Ascii.eqb c "]" = false /\ Ascii.eqb c "}" = false.
Proof.
  destruct v as [|[]|l|s|[|x xs]|[|[k x] ms]]; simpl; try discriminate; intros _; eauto 10.
Qed.

Lemma skip_ws_head c r : is_ws c = false -> skip_ws (String c r) = String c r.
Proof. simpl. by intros ->. Qed.

Lemma parse_value_layout f k s :
  parse_value f (newline ++ indentation k ++ s) = parse_value f s.
Proof. destruct f; [done|]. cbn [parse_value]. by rewrite skip_ws_layout. Qed.

Lemma parse_value_space f s : parse_value f (" " ++ s) = parse_value f s.
Proof. destruct f; [done|]. reflexivity. Qed.

Lemma parse_elems_layout f k s acc :
  parse_elems f (newline ++ indentation k ++ s) acc = parse_elems f s acc.
Proof. destruct f; [done|]. cbn [parse_elems]. by rewrite parse_value_layout. Qed.

Lemma parse_members_layout f k s acc :
  parse_members f (newline ++ indentation k ++ s) acc = parse_members f s acc.
Proof. destruct f; [done|]. cbn [parse_members]. by rewrite skip_ws_layout. Qed.

Lemma skip_ws_lit c X : is_ws c = false -> skip_ws (String c "" ++ X) = String c X.
Proof. simpl. by intros ->. Qed.
End Layout.

(** ** Parsing the printer's output *)

Section RoundTrip.
Lemma parse_elems_pretty n xs :
  Forall pretty_ok xs -> forallb json_nonum xs = true ->
  forall y acc f rest, pretty_ok y -> json_nonum y = true ->
  S (Nat.max (req y) (foldr (fun x acc => S (Nat.max (req x) acc)) 0 xs)) <= f ->
  parse_elems f (to_pretty (S n) y ++
    foldr (fun y acc => "," ++ newline ++ indentation (S n) ++ to_pretty (S n) y ++ acc) "" xs ++
    newline ++ indentation n ++ "]" ++ rest) acc = Some (JArray (acc ++ y :: xs), rest).
Proof.
  induction xs as [|z zs IH]; intros Hall Hnn y acc f rest Hy Hny Hf;
    (destruct f as [|f]; [lia|]); cbn [parse_elems foldr] in *.
  - rewrite Hy by (done || lia). cbn [String.append]. rewrite skip_ws_layout.
    rewrite skip_ws_head by reflexivity. reflexivity.
  - apply Forall_cons in Hall as [Hz Hzs]. simpl in Hnn. apply andb_prop in Hnn as [Hnz Hnzs].
    rewrite !string_app_assoc. rewrite Hy by (done || lia).
    rewrite (skip_ws_lit ","%char) by reflexivity. cbn iota.
    rewrite parse_elems_layout, IH by (done || lia). by rewrite <- app_assoc.
Qed.

Lemma parse_value_space' f s : parse_value f (String " " s) = parse_value f s.
Proof. destruct f; [done|]. reflexivity. Qed.

Lemma string_cons_app c X : String c X = String c "" ++ X.
Proof. reflexivity. Qed.

Lemma colon_space X : String ":" (String " " X) = ": " ++ X.
Proof. reflexivity. Qed.

Lemma parse_members_pretty n ms :
  Forall (fun m => pretty_ok m.2) ms -> forallb (fun m => json_nonum m.2) ms = true ->
  forall k y acc f rest, pretty_ok y -> json_nonum y = true ->
  S (Nat.max (req y) (foldr (fun m acc => S (Nat.max (req m.2) acc)) 0 ms)) <= f ->
  parse_members f (quoted k ++ ": " ++ to_pretty (S n) y ++
    foldr (fun m acc => "," ++ newline ++ indentation (S n) ++ quoted m.1 ++ ": " ++
                        to_pretty (S n) m.2 ++ acc) "" ms ++
    newline ++ indentation n ++ "}" ++ rest) acc = Some (JObject (acc ++ (k, y) :: ms), rest).
Proof.
  induction ms as [|[k' z] ms IH]; intros Hall Hnn k y acc f rest Hy Hny Hf;
    (destruct f as [|f]; [lia|]); cbn [parse_members foldr] in *.
  - unfold quoted. cbn [String.append].
    rewrite skip_ws_head by reflexivity. rewrite Ascii.eqb_refl.
    rewrite string_app_assoc. cbn [String.append]. rewrite parse_str_body_escape.
    rewrite skip_ws_head by reflexivity. cbn iota.
    rewrite parse_value_space', Hy by (done || lia).
    rewrite skip_ws_layout, skip_ws_head by reflexivity. reflexivity.
  - apply Forall_cons in Hall as [Hz Hzs]. simpl in Hnn. apply andb_prop in Hnn as [Hnz Hnzs].
    cbn [fst snd] in *. set (T := foldr _ "" ms).
    unfold quoted at 1. cbn [String.append].
    rewrite skip_ws_head by reflexivity. rewrite Ascii.eqb_refl.
    rewrite string_app_assoc. cbn [String.append]. rewrite parse_str_body_escape.
    rewrite skip_ws_head by reflexivity. cbn iota.
    rewrite parse_value_space', !string_app_assoc, Hy by (done || lia).
    cbn [String.append]. rewrite skip_ws_head by reflexivity. cbn iota.
    rewrite parse_members_layout. subst T. rewrite colon_space, string_app_assoc, (string_cons_app "}"%char rest).
    rewrite IH by (done || lia). by rewrite <- app_assoc.
Qed.

Lemma parse_pretty v : pretty_ok v.
Proof.
  induction v as [| b | l | s | xs IH | ms IH] using json_ind; intros Hnn n f rest Hf;
    (destruct f as [|f]; [simpl in Hf; lia|]).
  - reflexivity.
  - destruct b; reflexivity.
  - discriminate.
  - cbn [to_pretty]. unfold quoted. rewrite string_app_cons. simpl.
    by rewrite string_app_assoc, string_app_cons, string_app_nil_l, parse_str_body_escape.
  - destruct xs as [|x xs]; [reflexivity|].
    apply Forall_cons in IH as [Hx Hxs]. simpl in Hnn. apply andb_prop in Hnn as [Hnx Hnxs].
    cbn [req foldr] in Hf.
    cbn [to_pretty]. set (T := foldr _ "" xs). rewrite !string_app_assoc. simpl.
    rewrite skip_ws_indent.
    destruct (pretty_head (S n) x Hnx) as (c & r & Heq & Hws & Hb & _).
    rewrite Heq, string_app_cons, skip_ws_head by done. cbn iota. rewrite Hb.
    rewrite <- string_app_cons, <- Heq.
    change (String (ascii_of_nat 10) (indentation n ++ String "]" rest))
      with (newline ++ indentation n ++ "]" ++ rest).
    subst T. rewrite (parse_elems_pretty n xs) by (done || lia). done.
  - destruct ms as [|[k x] ms]; [reflexivity|].
    apply Forall_cons in IH as [Hx Hms]. simpl in Hnn. apply andb_prop in Hnn as [Hnx Hnms].
    cbn [req foldr fst snd] in *.
    cbn [to_pretty]. set (T := foldr _ "" ms). rewrite !string_app_assoc. simpl.
    rewrite skip_ws_indent, skip_ws_head by reflexivity. simpl.
    change (String char_quote ((escape_str k ++ String char_quote "") ++
              String ":" (String " " (to_pretty (S n) x ++ T ++
                String (ascii_of_nat 10) (indentation n ++ String "}" rest)))))
      with (quoted k ++ ": " ++ to_pretty (S n) x ++ T ++ newline ++ indentation n ++ "}" ++ rest).
    subst T. rewrite (parse_members_pretty n ms) by (done || lia). done.
Qed.
End RoundTrip.

(** ** Enough fuel: [2 * length + 1] covers [req] *)

Section Fuel.
Lemma length_indentation n : String.length (indentation n) = 2 * n.
Proof. induction n; simpl; lia. Qed.

Lemma length_quoted k : 2 <= String.length (quoted k).
Proof. unfold quoted. simpl. rewrite string_length_app. simpl. lia. Qed.

Lemma foldr_req_elems n xs :
  Forall len_ok xs ->
  foldr (fun x acc => S (Nat.max (req x) acc)) 0 xs <=
  String.length (foldr (fun y acc => "," ++ newline ++ indentation (S n) ++ to_pretty (S n) y ++ acc) "" xs).
Proof.
  induction 1 as [|x xs Hx _ IH]; [simpl; lia|]. cbn [foldr].
  set (T := foldr _ "" xs) in *. specialize (Hx (S n)).
  rewrite !string_length_app, length_indentation. simpl. lia.
Qed.

Lemma foldr_req_members n ms :
  Forall (fun m => len_ok m.2) ms ->
  foldr (fun m acc => S (Nat.max (req m.2) acc)) 0 ms <=
  String.length (foldr (fun m acc => "," ++ newline ++ indentation (S n) ++ quoted m.1 ++ ": " ++ to_pretty (S n) m.2 ++ acc) "" ms).
Proof.
  induction 1 as [|m ms Hm _ IH]; [simpl; lia|]. cbn [foldr].
  set (T := foldr _ "" ms) in *. specialize (Hm (S n)). pose proof (length_quoted m.1).
  rewrite !string_length_app, length_indentation. simpl. lia.
Qed.

Lemma req_le_length v : len_ok v.
Proof.
  induction v as [| b | l | s | xs IH | ms IH] using json_ind; intros n; cbn [req].
  - simpl. lia.
  - destruct b; simpl; lia.
  - simpl. lia.
  - simpl. lia.
  - destruct xs as [|x xs]; [simpl; lia|]. apply Forall_cons in IH as [Hx Hxs].
    pose proof (foldr_req_elems n xs Hxs). specialize (Hx (S n)).
    cbn [to_pretty foldr]. set (T := foldr _ "" xs) in *.
    rewrite !string_length_app, !length_indentation. simpl. lia.
  - destruct ms as [|[k x] ms]; [simpl; lia|]. apply Forall_cons in IH as [Hx Hms].
    pose proof (foldr_req_members n ms Hms). specialize (Hx (S n)). pose proof (length_quoted k).
    cbn [fst snd] in *. cbn [to_pretty foldr fst snd]. set (T := foldr _ "" ms) in *.
    rewrite !string_length_app, !length_indentation. simpl. lia.
Qed.
End Fuel.

(** The printed text of a number-free value parses back to the value:
    [serde_json::from_str] inverts [serde_json::to_string_pretty]. *)
Lemma from_str_pretty v : json_nonum v = true -> from_str (to_string_pretty v) = Some v.
Proof.
  intros Hnn. unfold from_str, to_string_pretty.
  pose proof (req_le_length v 0) as Hl.
  pose proof (parse_pretty v Hnn 0 (2 * String.length (to_pretty 0 v) + 1) "" ltac:(lia)) as Hp.
  rewrite string_app_nil_r in Hp. rewrite Hp. reflexivity.
Qed.
