(* ===== verification/Serde.v ===== *)
(** * The typed layer: what [#[derive(Serialize, Deserialize)]] produces

    serde splits (de)serialization into a data format (serde_json, in
    [Json.v]) and per-type code, derived for [Status], [Task] and [Tasks]
    and written by the uuid crate for [Uuid].  This file states that
    per-type contract as type classes — [Serialize] (to a [json] value),
    [Deserialize] (from one, [None] for serde's [Err]), [Valid] (the values
    the type's invariants allow) and [SerdeLaws] (serializing writes no
    numbers and deserializing inverts it on valid values) — gives the
    instances for the types [tasks.json] contains, and proves, against the
    interface only, that a document printed with [to_string_pretty] reads
    back.

    The derived code follows serde_derive:
    - [Status] (unit variants) is written as the string of its variant
      name; serde_json reads it back from that string or from the map form
      [{"Todo": null}]; another name is [unknown_variant].
    - [Task] is written as a map of its five fields in declaration order;
      it is read from a map whose keys are taken in any order (an unknown
      key is skipped, a repeated one is [duplicate_field], an absent one
      [missing_field]) or from a sequence of exactly five elements
      ([visit_seq]; serde_json refuses the trailing elements of a longer
      one).
    - [Tasks(Vec<Task>)] is a newtype struct, which serde_json writes and
      reads as its content: the sequence of tasks. *)
From S2P Require Import Prelude Uuid Task Json.
From stdpp Require Import base list strings.
From Stdlib Require Import Lia.
From Stdlib Require String.

Open Scope string_scope.

(** ** The interface *)

Class Serialize (A : Type) := serialize : A -> json.
Class Deserialize (A : Type) := deserialize : json -> option A.
Class Valid (A : Type) := valid : A -> Prop.

Class SerdeLaws (A : Type) `{Serialize A, Deserialize A, Valid A} := {
  serialize_nonum (a : A) : json_nonum (serialize a) = true;
  deserialize_serialize (a : A) : valid a -> deserialize (serialize a) = Some a
}.

(** ** [String] *)

#[export] Instance string_serialize : Serialize string := JString.
#[export] Instance string_deserialize : Deserialize string :=
  fun v => match v with JString s => Some s | _ => None end.
#[export] Instance string_valid : Valid string := fun _ => True.

(** ** [Uuid]: [serialize_str] of [hyphenated().encode_lower], read back
    with [Uuid::parse_str] *)

#[export] Instance Uuid_serialize : Serialize Uuid := fun u => JString (encode_lower u).
#[export] Instance Uuid_deserialize : Deserialize Uuid :=
  fun v => match v with JString s => parse_str s | _ => None end.
#[export] Instance Uuid_valid : Valid Uuid := uuid_wf.

(** ** [Vec<T>]: a JSON array of the elements *)

#[export] Instance list_serialize `{Serialize A} : Serialize (list A) :=
  fun l => JArray (serialize <$> l).
#[export] Instance list_deserialize `{Deserialize A} : Deserialize (list A) :=
  fun v => match v with JArray xs => mapM deserialize xs | _ => None end.
#[export] Instance list_valid `{Valid A} : Valid (list A) := Forall valid.

(** ** [enum Status] *)

Definition Status_variant_name (s : Status) : string :=
  match s with
  | Todo => "Todo"
  | Done => "Done"
  end.

(** The derived field visitor of the variant names. *)
Definition Status_variant (k : string) : option Status :=
  if String.eqb k "Todo" then Some Todo
  else if String.eqb k "Done" then Some Done
  else None.

#[export] Instance Status_serialize : Serialize Status :=
  fun s => JString (Status_variant_name s).
#[export] Instance Status_deserialize : Deserialize Status :=
  fun v => match v with
           | JString k => Status_variant k
           | JObject [(k, JNull)] => Status_variant k
           | _ => None
           end.
#[export] Instance Status_valid : Valid Status := fun _ => True.

(** ** [struct Task] *)

#[export] Instance Task_serialize : Serialize Task :=
  fun t => JObject [("id", serialize (id t)); ("name", serialize (name t));
                    ("description", serialize (description t));
                    ("status", serialize (status t)); ("subtasks", serialize (subtasks t))].

(** The derived [__Field] enum and its [visit_str]. *)
Inductive task_field := F_id | F_name | F_description | F_status | F_subtasks | F_ignore.

#[export] Instance task_field_eq_dec : EqDecision task_field.
Proof. solve_decision. Defined.

Definition task_field_of (k : string) : task_field :=
  if String.eqb k "id" then F_id
  else if String.eqb k "name" then F_name
  else if String.eqb k "description" then F_description
  else if String.eqb k "status" then F_status
  else if String.eqb k "subtasks" then F_subtasks
  else F_ignore.

(** The derived [visit_map]: one [Option] slot per field. *)
Fixpoint task_visit_map (ms : list (string * json)) (i : option Uuid) (n d : option string)
    (s : option Status) (subs : option (list Uuid)) : option Task :=
  match ms with
  | [] =>
      i' ← i; n' ← n; d' ← d; s' ← s; subs' ← subs; Some (mkTask i' n' d' s' subs')
  | (k, v) :: ms =>
      match task_field_of k with
      | F_id =>
          match i with
          | Some _ => None
          | None => x ← deserialize v; task_visit_map ms (Some x) n d s subs
          end
      | F_name =>
          match n with
          | Some _ => None
          | None => x ← deserialize v; task_visit_map ms i (Some x) d s subs
          end
      | F_description =>
          match d with
          | Some _ => None
          | None => x ← deserialize v; task_visit_map ms i n (Some x) s subs
          end
      | F_status =>
          match s with
          | Some _ => None
          | None => x ← deserialize v; task_visit_map ms i n d (Some x) subs
          end
      | F_subtasks =>
          match subs with
          | Some _ => None
          | None => x ← deserialize v; task_visit_map ms i n d s (Some x)
          end
      | F_ignore => task_visit_map ms i n d s subs
      end
  end.

(** The derived [visit_seq], with serde_json's check that the sequence
    ends after the fifth element. *)
Definition task_visit_seq (xs : list json) : option Task :=
  match xs with
  | [vi; vn; vd; vs; vsub] =>
      i ← deserialize vi; n ← deserialize vn; d ← deserialize vd;
      s ← deserialize vs; subs ← deserialize vsub; Some (mkTask i n d s subs)
  | _ => None
  end.

#[export] Instance Task_deserialize : Deserialize Task :=
  fun v => match v with
           | JObject ms => task_visit_map ms None None None None None
           | JArray xs => task_visit_seq xs
           | _ => None
           end.

(** A task's ids are 128-bit values. *)
#[export] Instance Task_valid : Valid Task := fun t => valid (id t) /\ valid (subtasks t).

(** ** The document of [save] and [load] *)

(** [serde_json::to_string_pretty(&tasks)]. *)
Definition tasks_to_json (ts : list Task) : string := to_string_pretty (serialize ts).

(** [serde_json::from_reader::<Tasks>]: [None] is its [Err]. *)
Definition tasks_from_json (s : string) : option (list Task) := from_str s ≫= deserialize.

(** How many keys of a map select the derived field [f]. *)
Definition field_count (f : task_field) (ms : list (string * json)) : nat :=
  length (filter (fun m => task_field_of m.1 = f) ms).

(** Whether [visit_map]'s slot of field [f] is already filled. *)
Definition slot_count (f : task_field) (i : option Uuid) (n d : option string)
    (s : option Status) (subs : option (list Uuid)) : nat :=
  match f with
  | F_id => match i with Some _ => 1 | None => 0 end
  | F_name => match n with Some _ => 1 | None => 0 end
  | F_description => match d with Some _ => 1 | None => 0 end
  | F_status => match s with Some _ => 1 | None => 0 end
  | F_subtasks => match subs with Some _ => 1 | None => 0 end
  | F_ignore => 1
  end.

(** A map with its keys out of order and an unknown key. *)
Definition sample_members : list (string * json) :=
  [("status", JString "Done"); ("extra", JArray []);
   ("id", JString "67e55044-10b1-426f-9247-bb680e5fe0c8"); ("name", JString "n");
   ("subtasks", JArray []); ("description", JString "d")].

Definition sample_task : Task :=
  mkTask (Uuid_from_u128 138101147531900207301164854559698313416) "n" "d" Done [].

(** ** The instances satisfy the laws *)

Section Laws.

Lemma mapM_deserialize_serialize `{SerdeLaws A} (l : list A) :
  Forall valid l -> mapM deserialize (serialize <$> l) = Some l.
Proof.
  induction 1 as [|x l Hx _ IH]; [done|]. rewrite fmap_cons. cbn [mapM].
  rewrite (deserialize_serialize x Hx), IH. done.
Qed.

#[export] Instance string_laws : SerdeLaws string.
Proof. split; done. Qed.

#[export] Instance Uuid_laws : SerdeLaws Uuid.
Proof. split; [done|]. intros u Hu. apply parse_str_encode_lower, Hu. Qed.

#[export] Instance Status_laws : SerdeLaws Status.
Proof. split; by intros []. Qed.

#[export] Instance list_laws `{SerdeLaws A} : SerdeLaws (list A).
Proof.
  split.
  - intros l. induction l as [|x l IH]; [done|].
    change (json_nonum (serialize x) && json_nonum (serialize l) = true).
    by rewrite serialize_nonum, IH.
  - intros l Hl. apply mapM_deserialize_serialize, Hl.
Qed.

#[export] Instance Task_laws : SerdeLaws Task.
Proof.
  split.
  - intros t.
    change (json_nonum (serialize (id t)) && (json_nonum (serialize (name t)) &&
      (json_nonum (serialize (description t)) && (json_nonum (serialize (status t)) &&
      (json_nonum (serialize (subtasks t)) && true)))) = true).
    by rewrite !serialize_nonum.
  - intros [i n d s subs] [Hi Hs].
    change ((x ← deserialize (serialize i); y ← deserialize (serialize n);
            z ← deserialize (serialize d); w ← deserialize (serialize s);
            u ← deserialize (serialize subs); Some (mkTask x y z w u)) = Some (mkTask i n d s subs)).
    rewrite (deserialize_serialize i Hi), (deserialize_serialize (A:=string) n I),
      (deserialize_serialize (A:=string) d I), (deserialize_serialize (A:=Status) s I),
      (deserialize_serialize subs Hs).
    reflexivity.
Qed.

End Laws.

(** ** Documents, against the interface *)

Section Document.
Context `{SerdeLaws A}.

(** A valid value printed by [to_string_pretty] is read back by
    [from_str] and the type's [Deserialize]. *)
Lemma from_str_to_string_pretty (a : A) :
  valid a -> from_str (to_string_pretty (serialize a)) ≫= deserialize = Some a.
Proof. intros Hv. rewrite from_str_pretty by apply serialize_nonum. apply deserialize_serialize, Hv. Qed.

End Document.

(** [Tasks(Vec<Task>)]: the document [save] writes is read back by
    [load]'s parser. *)
Lemma tasks_json_roundtrip (ts : list Task) : Forall valid ts -> tasks_from_json (tasks_to_json ts) = Some ts.
Proof. apply (from_str_to_string_pretty (A:=list Task)). Qed.

(** ** The derived [visit_map] on its error paths *)

Section Fields.

Lemma field_count_cons f k v ms :
  field_count f ((k, v) :: ms) = (if decide (task_field_of k = f) then 1 else 0) + field_count f ms.
Proof. unfold field_count. rewrite filter_cons. simpl. by case_decide. Qed.

Lemma task_visit_map_fields ms : forall i n d s subs t,
  task_visit_map ms i n d s subs = Some t ->
  forall f, f <> F_ignore -> field_count f ms + slot_count f i n d s subs = 1.
Proof.
  induction ms as [|[k v] ms IH]; intros i n d s subs t Hm f Hf.
  - destruct i, n, d, s, subs; simpl in Hm; try discriminate; by destruct f.
  - rewrite field_count_cons. cbn [task_visit_map] in Hm.
    destruct (task_field_of k) eqn:Hk;
      [destruct i|destruct n|destruct d|destruct s|destruct subs|]; try discriminate;
      try (destruct (deserialize v); [|discriminate]; simpl in Hm);
      pose proof (IH _ _ _ _ _ _ Hm f Hf);
      destruct f; try contradiction; case_decide; simplify_eq/=; lia.
Qed.

End Fields.

(** ** Properties *)

(** C19: A task is deserialized from a JSON map only when each of its five
    field names occurs exactly once among the keys: serde's derived
    [visit_map] rejects a repeated field ([duplicate_field]) and an absent
    one ([missing_field]); unknown keys are skipped. *)
Theorem Task_deserialize_fields ms t :
  deserialize (A:=Task) (JObject ms) = Some t -> forall f, f <> F_ignore -> field_count f ms = 1.
Proof.
  intros Hd f Hf. pose proof (task_visit_map_fields ms _ _ _ _ _ t Hd f Hf).
  destruct f; try contradiction; cbn [slot_count] in *; lia.
Qed.

Lemma Task_deserialize_fields_witness :
  deserialize (A:=Task) (JObject sample_members) = Some sample_task /\
  field_count F_name sample_members = 1.
Proof.
  assert (Hd : deserialize (A:=Task) (JObject sample_members) = Some sample_task) by (vm_compute; reflexivity).
  split; [exact Hd|]. exact (Task_deserialize_fields _ _ Hd F_name ltac:(discriminate)).
Defined.
