(* ===== verification/Interact.v ===== *)
(** * The Interaction Layer and the Persistence Adapter: [main] and its
    helpers, [save] and [load]

    The functions of [src/src/main.rs] after [impl Tasks] run in an
    explicit [world]: the bytes left on stdin, the text written to
    stdout, the content of [tasks.json] ([None] when it does not exist),
    whether [File::create] succeeds, and the random draws [Uuid::new_v4]
    takes.  A computation of type [io A] maps a world to an [outcome] (a
    value, or the [panic] that aborted the process) and the world after
    it, so that what a run saved before a panic is still observable.

    [read_line] returns the bytes up to and including the next line feed,
    or [""] at end of input (Rust's [read_line] returning [Ok(0)]);
    [str::trim], [str::parse::<usize>] (64-bit [usize]) and the [Display]
    of a [usize] are written out.  [main]'s [loop] is [main_loop] with
    fuel: one unit per iteration.  [decode] and [script] read stdin as
    the sequence of store commands ([cmd]) the handlers ask for;
    [main_refines] shows that a run that quits saved the store that
    sequence of labelled store steps leads to. *)
From S2P Require Import Prelude Uuid Task Store Json Serde.
From stdpp Require Import base list strings relations.
From Stdlib Require Import ZArith Lia Ascii.
From Stdlib Require String.

Open Scope string_scope.

(** ** The world *)

Record world := mkWorld {
  w_stdin : string;
  w_stdout : string;
  w_file : option string;
  w_writable : bool;
  w_rng : nat -> list Z;
  w_draws : nat
}.

Definition with_stdin (s : string) (w : world) : world :=
  mkWorld s (w_stdout w) (w_file w) (w_writable w) (w_rng w) (w_draws w).
Definition with_stdout (s : string) (w : world) : world :=
  mkWorld (w_stdin w) s (w_file w) (w_writable w) (w_rng w) (w_draws w).
Definition with_file (f : option string) (w : world) : world :=
  mkWorld (w_stdin w) (w_stdout w) f (w_writable w) (w_rng w) (w_draws w).
Definition with_draws (k : nat) (w : world) : world :=
  mkWorld (w_stdin w) (w_stdout w) (w_file w) (w_writable w) (w_rng w) k.

(** ** The monad *)

(** The world is kept after a panic: what was printed and saved before
    the abort stays. *)
Definition io (A : Type) : Type := world -> outcome A * world.

Definition io_ret {A} (a : A) : io A := fun w => (Ok a, w).

Definition io_bind {A B} (m : io A) (k : A -> io B) : io B :=
  fun w => match m w with
           | (Ok a, w') => k a w'
           | (Panic p, w') => (Panic p, w')
           end.

(** A computation of [Store.v] that may panic, run in the world. *)
Definition io_lift {A} (o : outcome A) : io A :=
  fun w => match o with
           | Ok a => (Ok a, w)
           | Panic p => (Panic p, w)
           end.

Notation "x <- m ;; k" := (io_bind m (fun x => k))
  (at level 100, m at next level, right associativity) : tw_scope.
Notation "m ;;; k" := (io_bind m (fun _ => k))
  (at level 100, right associativity) : tw_scope.
Open Scope tw_scope.

(** ** Terminal primitives *)

(** [print!]: the bytes are appended to stdout. *)
Definition print (s : string) : io unit :=
  fun w => (Ok tt, with_stdout (w_stdout w ++ s) w).

(** [println!]. *)
Definition put_line (s : string) : io unit := print (println s).

Definition line_feed : ascii := ascii_of_nat 10.

(** The bytes of the next line, its line feed included, and the rest. *)
Fixpoint split_line (s : string) : string * string :=
  match s with
  | EmptyString => (EmptyString, EmptyString)
  | String c s' =>
      if Ascii.eqb c line_feed then (String c EmptyString, s')
      else let '(l, r) := split_line s' in (String c l, r)
  end.

(** [io::stdin().read_line(&mut input).expect("Failed to read input")]
    on a fresh [input]: at end of input it is [""]. *)
Definition read_line : io string :=
  fun w => let '(l, r) := split_line (w_stdin w) in (Ok l, with_stdin r w).

(** [Uuid::new_v4()]: the next random draw of 16 bytes. *)
Definition new_v4_io : io Uuid :=
  fun w => (Ok (new_v4 (w_rng w (w_draws w))), with_draws (S (w_draws w)) w).

(** ** [str::trim] on bytes *)

(** [char::is_whitespace] on a one-byte character. *)
Definition is_whitespace (c : ascii) : bool :=
  let n := nat_of_ascii c in (Nat.leb 9 n && Nat.leb n 13) || Nat.eqb n 32.

Fixpoint trim_start (s : string) : string :=
  match s with
  | EmptyString => EmptyString
  | String c s' => if is_whitespace c then trim_start s' else s
  end.

Fixpoint trim_end (s : string) : string :=
  match s with
  | EmptyString => EmptyString
  | String c s' =>
      match trim_end s' with
      | EmptyString => if is_whitespace c then EmptyString else String c EmptyString
      | r => String c r
      end
  end.

Definition trim (s : string) : string := trim_end (trim_start s).

(** ** [str::parse::<usize>] and [Display] for [usize] *)

Definition usize_max : Z := 2 ^ 64 - 1.

Definition digit_val (c : ascii) : Z := Z.of_nat (nat_of_ascii c) - 48.

(** The digit loop of [u64::from_str_radix] with [checked_mul] and
    [checked_add]. *)
Fixpoint parse_digits (s : string) (acc : Z) : option Z :=
  match s with
  | EmptyString => Some acc
  | String c s' =>
      if is_digit c then
        let acc' := (acc * 10 + digit_val c)%Z in
        if Z.leb acc' usize_max then parse_digits s' acc' else None
      else None
  end.

(** [usize::from_str]: an optional [+], then at least one digit. *)
Definition parse_usize (s : string) : option Z :=
  match s with
  | EmptyString => None
  | String "+" EmptyString => None
  | String "+" s' => parse_digits s' 0
  | _ => parse_digits s 0
  end.

Definition digit_char (n : nat) : ascii := ascii_of_nat (48 + n).

Fixpoint decimal_go (fuel n : nat) (acc : string) : string :=
  match fuel with
  | 0 => acc
  | S f =>
      let acc' := String (digit_char (n mod 10)) acc in
      if Nat.ltb n 10 then acc' else decimal_go f (n / 10) acc'
  end.

(** [format!("{idx}")] of an index [idx : usize]. *)
Definition usize_to_string (n : nat) : string := decimal_go (S n) n EmptyString.

(** [.unwrap()] of the [Result] of [parse::<usize>]. *)
Definition unwrap_parse (o : option Z) : outcome Z :=
  match o with
  | Some n => Ok n
  | None => Panic ParseIntFailed
  end.

(** [for (idx, x) in xs.iter().enumerate() { if idx == selection { return
    Some(x) } } None], the slot kept with the element. *)
Fixpoint find_enumerate {A} (xs : list A) (idx : nat) (selection : Z) : option (nat * A) :=
  match xs with
  | [] => None
  | x :: xs' =>
      if Z.eqb (Z.of_nat idx) selection then Some (idx, x)
      else find_enumerate xs' (S idx) selection
  end.

(** ** [enum Action] and [menu] *)

Inductive Action :=
| PickAction | Add | AddSubtask | MakeSubtask | Toggle | Delete | Display | Quit.

(** [Action::iter()]: the variants in declaration order. *)
Definition actions : list Action :=
  [PickAction; Add; AddSubtask; MakeSubtask; Toggle; Delete; Display; Quit].

(** [{:?}] of an [Action]. *)
Definition action_debug (a : Action) : string :=
  match a with
  | PickAction => "PickAction" | Add => "Add" | AddSubtask => "AddSubtask"
  | MakeSubtask => "MakeSubtask" | Toggle => "Toggle" | Delete => "Delete"
  | Display => "Display" | Quit => "Quit"
  end.

Fixpoint print_actions (idx : nat) (l : list Action) : io unit :=
  match l with
  | [] => io_ret tt
  | a :: l' => put_line (usize_to_string idx ++ ") " ++ action_debug a) ;;; print_actions (S idx) l'
  end.

(** [input.trim().parse::<usize>().unwrap()] of the next line. *)
Definition read_usize : io Z :=
  input <- read_line ;; io_lift (unwrap_parse (parse_usize (trim input))).

Definition menu : io Action :=
  print_actions 0 actions ;;;
  selection <- read_usize ;;
  io_ret (match find_enumerate actions 0 selection with
          | Some (_, action) => action
          | None => PickAction
          end).

(** ** [select], [pause], [confirm] *)

(** [print!("{idx}) "); tasks.display(&task.id);] for each task. *)
Fixpoint print_choices (ts : list Task) (idx : nat) (l : list Task) : io unit :=
  match l with
  | [] => io_ret tt
  | t :: l' =>
      print (usize_to_string idx ++ ") ") ;;;
      out <- io_lift (Tasks.display ts (id t)) ;; print out ;;;
      print_choices ts (S idx) l'
  end.

(** [select] returns a reference into the vector: its slot and the task. *)
Definition select (ts : list Task) : io (option (nat * Task)) :=
  print_choices ts 0 ts ;;;
  selection <- read_usize ;;
  io_ret (find_enumerate ts 0 selection).

Definition pause : io unit :=
  put_line "Press any key to continue." ;;; _ <- read_line ;; io_ret tt.

(** [input.trim().chars().nth(0)]. *)
Definition first_char (s : string) : option ascii :=
  match s with
  | EmptyString => None
  | String c _ => Some c
  end.

Definition confirm : io bool :=
  put_line "[y/N]: " ;;;
  input <- read_line ;;
  let selection := unwrap_or "n"%char (first_char (trim input)) in
  io_ret (Ascii.eqb selection "y"%char).

(** ** The handlers of [main]'s actions *)

(** [fn remove_task]: the selected reference is the address handed to
    [Tasks::remove_task]. *)
Definition remove_task (ts : list Task) : io (list Task) :=
  selected <- select ts ;;
  selection <- io_lift (unwrap selected) ;;
  put_line "Are you sure you wish to delete? " ;;;
  yes <- confirm ;;
  if yes then
    let selection_id := id selection.2 in
    let ts' := Tasks.remove_task ts (TaskSlot selection.1) selection_id in
    put_line "Task Deleted." ;;; io_ret ts'
  else io_ret ts.

(** [fn add_task]: it pushes onto [tasks.0] itself. *)
Definition add_task (ts : list Task) : io (list Task) :=
  put_line "Task Name: " ;;;
  input <- read_line ;; let name := trim input in
  put_line "Description: " ;;;
  input <- read_line ;; let description := trim input in
  u <- new_v4_io ;;
  io_ret (ts ++ [mkTask u name description Todo []])%list.

Definition add_subtask (ts : list Task) : io (list Task) :=
  put_line "Add subtask to:" ;;;
  selected <- select ts ;;
  add_to <- io_lift (unwrap selected) ;;
  put_line "Task Name: " ;;;
  input <- read_line ;; let name := trim input in
  put_line "Description: " ;;;
  input <- read_line ;; let description := trim input in
  uuid <- new_v4_io ;;
  io_ret (Tasks.add_subtask ts (id add_to.2) (mkTask uuid name description Todo [])).

Definition make_subtask (ts : list Task) : io (list Task) :=
  put_line "Select task to add as a subtask: " ;;;
  selected <- select ts ;; sub <- io_lift (unwrap selected) ;;
  put_line "Select task to add subtask to: " ;;;
  selected <- select ts ;; to_task <- io_lift (unwrap selected) ;;
  io_ret (Tasks.make_subtask ts (id to_task.2) (id sub.2)).

Definition toggle_task (ts : list Task) : io (list Task) :=
  put_line "Select task to toggle status of: " ;;;
  selected <- select ts ;; to_toggle <- io_lift (unwrap selected) ;;
  done <- io_lift (Tasks.check_if_subtasks_done ts (id to_toggle.2)) ;;
  if done then io_ret (Tasks.mark_task_toggle ts (id to_toggle.2))
  else put_line "You need to complete all subtasks of this task first!" ;;; io_ret ts.

(** ** The Persistence Adapter *)

(** [fn save]: [to_string_pretty] cannot fail on these types; [File::create]
    truncates and [write_all] writes the document.  A failed [write_all]
    is not distinguished from a failed [File::create]. *)
Definition save (ts : list Task) : io unit :=
  fun w => if w_writable w then (Ok tt, with_file (Some (tasks_to_json ts)) w)
           else (Panic (ExpectFailed "Could not open task file"), w).

(** [fn load]: a file that does not parse gives the empty store. *)
Definition load : io (list Task) :=
  fun w => match w_file w with
           | Some content => (Ok (unwrap_or [] (tasks_from_json content)), w)
           | None =>
               if w_writable w then (Ok [], with_file (Some "") w)
               else (Panic (ExpectFailed "Could not create task file"), w)
           end.

(** ** [fn main] *)

(** [Action::Display]: [for task in tasks.0.iter() { tasks.display(&task.id) }]. *)
Fixpoint display_all (ts : list Task) (l : list Task) : io unit :=
  match l with
  | [] => io_ret tt
  | t :: l' => out <- io_lift (Tasks.display ts (id t)) ;; print out ;;; display_all ts l'
  end.

(** One arm of [main]'s [match action]; [None] after [Quit]'s [return]. *)
Definition run_action (action : Action) (ts : list Task) : io (option (list Task)) :=
  match action with
  | PickAction => io_ret (Some ts)
  | Add => ts' <- add_task ts ;; save ts' ;;; io_ret (Some ts')
  | AddSubtask => ts' <- add_subtask ts ;; save ts' ;;; io_ret (Some ts')
  | MakeSubtask => ts' <- make_subtask ts ;; save ts' ;;; io_ret (Some ts')
  | Toggle => ts' <- toggle_task ts ;; save ts' ;;; io_ret (Some ts')
  | Delete => ts' <- remove_task ts ;; save ts' ;;; io_ret (Some ts')
  | Display => display_all ts ts ;;; pause ;;; io_ret (Some ts)
  | Quit => save ts ;;; io_ret None
  end.

(** [loop { let action = menu(); ... }] with [fuel] iterations; the result
    is [true] when the loop returned through [Quit] and [false] when the
    fuel ran out. *)
Fixpoint main_loop (fuel : nat) (ts : list Task) : io bool :=
  match fuel with
  | 0 => io_ret false
  | S f =>
      action <- menu ;;
      next <- run_action action ts ;;
      match next with
      | None => io_ret true
      | Some ts' => main_loop f ts'
      end
  end.

Definition main (fuel : nat) : io bool :=
  tasks <- load ;; main_loop fuel tasks.

(** ** The commands typed at the prompts

    What an iteration of [main]'s loop reads from stdin, decoded without
    running it: the menu line, then the lines the chosen handler reads,
    turned into the store command ([cmd] of [Store.v]) they ask for.  The
    lines are cut as [read_line] cuts them and read as [menu], [select]
    and [confirm] read them. *)

(** The answer [confirm] gives for the line it read. *)
Definition confirmed (input : string) : bool :=
  Ascii.eqb (unwrap_or "n"%char (first_char (trim input))) "y"%char.

(** The slot a line selects: [select] answers the task whose index equals
    the parsed [usize]. *)
Definition line_index (l : string) : option nat := Z.to_nat <$> parse_usize (trim l).

(** The [Action] a menu line selects. *)
Definition line_action (l : string) : option Action :=
  (fun n => match find_enumerate actions 0 n with
            | Some (_, action) => action
            | None => PickAction
            end) <$> parse_usize (trim l).

(** The next line read as a slot, and the input after it. *)
Definition take_index (s : string) : option (nat * string) :=
  let '(l, r) := split_line s in (fun k => (k, r)) <$> line_index l.

(** The command the handler of [a] reads from [s], and the input after
    it.  [Quit] reads nothing more and issues no command. *)
Definition decode (a : Action) (s : string) : option (cmd * string) :=
  match a with
  | PickAction => Some (CPick, s)
  | Add =>
      let '(n, r1) := split_line s in let '(d, r2) := split_line r1 in
      Some (CAdd (trim n) (trim d), r2)
  | AddSubtask =>
      match take_index s with
      | Some (k, r) =>
          let '(n, r1) := split_line r in let '(d, r2) := split_line r1 in
          Some (CAddSubtask k (trim n) (trim d), r2)
      | None => None
      end
  | MakeSubtask =>
      match take_index s with
      | Some (ks, r) =>
          match take_index r with
          | Some (kt, r') => Some (CMakeSubtask ks kt, r')
          | None => None
          end
      | None => None
      end
  | Toggle =>
      match take_index s with
      | Some (k, r) => Some (CToggle k, r)
      | None => None
      end
  | Delete =>
      match take_index s with
      | Some (k, r) => let '(l, r') := split_line r in Some (CDelete k (confirmed l), r')
      | None => None
      end
  | Display => Some (CDisplay, snd (split_line s))
  | Quit => None
  end.

(** The commands of the iterations before [Quit], when the input reaches
    a [Quit] within [fuel] menu lines and every line parses. *)
Fixpoint script (fuel : nat) (input : string) : option (list cmd) :=
  match fuel with
  | 0 => None
  | S f =>
      let '(l, r) := split_line input in
      match line_action l with
      | None => None
      | Some Quit => Some []
      | Some a =>
          match decode a r with
          | Some (c, r') => cons c <$> script f r'
          | None => None
          end
      end
  end.

(** ** Reasoning about [io]

    [wp m w Q]: if [m] run in [w] does not panic, its value and the world
    after it satisfy [Q]. *)
Definition wp {A} (m : io A) (w : world) (Q : A -> world -> Prop) : Prop :=
  match m w with
  | (Ok a, w') => Q a w'
  | (Panic _, _) => True
  end.

(** What every step of the program keeps: the random source and the
    file's writability; draws are only taken and stdin only consumed. *)
Definition advances (w w' : world) : Prop :=
  w_rng w' = w_rng w /\ w_writable w' = w_writable w /\
  w_draws w <= w_draws w' /\ String.length (w_stdin w') <= String.length (w_stdin w).

(** [fresh_draws], decided. *)
Definition fresh_draws_b (bound : nat) (ts : list Task) (w : world) : bool :=
  forallb (fun k =>
    bool_decide (new_v4 (w_rng w k) ∉ ids ts) &&
    forallb (fun k' => bool_decide (new_v4 (w_rng w k') <> new_v4 (w_rng w k)))
      (seq (w_draws w) (k - w_draws w)))
    (seq (w_draws w) (bound - w_draws w)).

(** The input lines [l], each ended by a line feed. *)
Definition lines (l : list string) : string :=
  foldr (fun x acc => x ++ String line_feed acc) "" l.

(** ** Sample runs

    Draw [k] of [sample_rng] is fifteen zero bytes and [k + 1];
    [scenario_input] is the scenario of the specification typed at the
    prompts: add A, add B under A, toggle A, toggle B, toggle A, delete B
    (and confirm), quit. *)
Definition sample_rng (k : nat) : list Z := (repeat 0%Z 15 ++ [Z.of_nat (S k)])%list.

Definition sample_world (input : string) (file : option string) : world :=
  mkWorld input "" file true sample_rng 0.

Definition scenario_input : string :=
  lines ["1"; "Write spec"; "draft v1"; "2"; "0"; "Review"; ""; "4"; "0"; "4"; "1"; "4"; "0";
         "5"; "1"; "y"; "7"].

(** A store where a [Done] task has a [Todo] subtask. *)
Definition sample_reopen : list Task :=
  [mkTask (Uuid_from_u128 1) "Write spec" "draft v1" Done [Uuid_from_u128 2]; task_b].

(** A step that only reads stdin and writes stdout. *)
Definition terminal_only (w w' : world) : Prop :=
  w_rng w' = w_rng w /\ w_writable w' = w_writable w /\ w_draws w' = w_draws w /\
  w_file w' = w_file w /\ String.length (w_stdin w') <= String.length (w_stdin w).

(** The draws not taken yet, below [bound], give ids absent from the store
    and distinct from one another ([Uuid::new_v4]'s promise of uniqueness,
    for the draws a run can take: one per iteration at most). *)
Definition fresh_draws (bound : nat) (ts : list Task) (w : world) : Prop :=
  forall k, w_draws w <= k < bound ->
    (new_v4 (w_rng w k) ∉ ids ts) /\
    (forall k', w_draws w <= k' < k -> new_v4 (w_rng w k') <> new_v4 (w_rng w k)).


(** A computation that only writes to stdout. *)
Definition output_only {A} (m : io A) : Prop :=
  forall w (Q : A -> world -> Prop),
    (forall a w', terminal_only w w' -> w_stdin w' = w_stdin w -> Q a w') -> wp m w Q.

(** What the handler [h] of action [a] guarantees: the world advances,
    the handler reads exactly the lines [decode a] reads, and when the
    ids of the pending random draws are fresh, the store moves by the
    labelled step of the command those lines ask for and the draws left
    stay fresh. *)
Definition handler_spec (a : Action) (h : list Task -> io (list Task)) : Prop :=
  forall ts w Q,
    (forall c ts' w', advances w w' -> w_draws w' <= S (w_draws w) ->
       decode a (w_stdin w) = Some (c, w_stdin w') ->
       (forall B, w_draws w < B -> fresh_draws B ts w -> lstep ts c ts' /\ fresh_draws B ts' w') ->
       Q ts' w') ->
    wp (h ts) w Q.

(** [s] holds no line feed: typed as one line. *)
Fixpoint no_line_feed (s : string) : bool :=
  match s with
  | EmptyString => true
  | String c s' => negb (Ascii.eqb c line_feed) && no_line_feed s'
  end.

(** Every byte of [s] is an ASCII digit. *)
Fixpoint all_digits (s : string) : bool :=
  match s with
  | EmptyString => true
  | String c s' => is_digit c && all_digits s'
  end.

(** ** The program logic of [io] *)

Section IoLogic.
Context {A B : Type}.

Lemma wp_bind (m : io A) (k : A -> io B) w Q :
  wp m w (fun a w' => wp (k a) w' Q) -> wp (io_bind m k) w Q.
Proof. unfold wp, io_bind. by destruct (m w) as [[a|p] w']. Qed.

Lemma wp_ret (a : A) w (Q : A -> world -> Prop) : Q a w -> wp (io_ret a) w Q.
Proof. done. Qed.

Lemma wp_lift (o : outcome A) w Q : (forall a, o = Ok a -> Q a w) -> wp (io_lift o) w Q.
Proof. unfold wp, io_lift. destruct o; auto. Qed.

Lemma wp_mono (m : io A) w (Q Q' : A -> world -> Prop) :
  wp m w Q -> (forall a w', Q a w' -> Q' a w') -> wp m w Q'.
Proof. unfold wp. destruct (m w) as [[a|p] w']; auto. Qed.

End IoLogic.

(** Close a goal about how worlds are related from the hypotheses that
    chain them. *)
Ltac world_solve :=
  unfold terminal_only, advances in *;
  cbn [w_rng w_writable w_draws w_file w_stdin w_stdout with_stdin with_stdout with_file with_draws] in *;
  destruct_and?; split_and?; first [congruence | lia].

Section Worlds.

Lemma terminal_only_refl w : terminal_only w w.
Proof. world_solve. Qed.

Lemma terminal_only_advances w w' : terminal_only w w' -> advances w w'.
Proof. intros. world_solve. Qed.

Lemma length_split_line s :
  String.length (snd (split_line s)) <= String.length s /\
  (fst (split_line s) <> "" -> String.length (snd (split_line s)) < String.length s).
Proof.
  induction s as [|c s IH]; simpl; [split; [lia|done]|].
  destruct (Ascii.eqb c line_feed); simpl; [lia|].
  destruct (split_line s) as [l r]; simpl in *. lia.
Qed.

Lemma fresh_draws_step B ts ts' w w' :
  fresh_draws B ts w -> w_rng w' = w_rng w -> w_draws w <= w_draws w' ->
  (forall i, i ∈ ids ts' -> i ∈ ids ts \/
     exists k, w_draws w <= k < w_draws w' /\ i = new_v4 (w_rng w k)) ->
  fresh_draws B ts' w'.
Proof.
  intros Hf Hrng Hle Hids k Hk. rewrite Hrng. split.
  - intros Hin. destruct (Hids _ Hin) as [Hold|(k0 & Hk0 & Heq)].
    + apply (proj1 (Hf k ltac:(lia))), Hold.
    + apply (proj2 (Hf k ltac:(lia)) k0 ltac:(lia)). done.
  - intros k' Hk'. apply (proj2 (Hf k ltac:(lia))). lia.
Qed.

End Worlds.

#[export] Hint Resolve terminal_only_refl terminal_only_advances : tw.

(** ** Specifications of the primitives *)

Section Primitives.

Lemma wp_new_v4 w Q :
  (forall w', advances w w' -> w_file w' = w_file w -> w_draws w' = S (w_draws w) ->
     w_stdin w' = w_stdin w -> Q (new_v4 (w_rng w (w_draws w))) w') ->
  wp new_v4_io w Q.
Proof. intros HQ. apply HQ; [world_solve|done|done|done]. Qed.

Lemma wp_save ts w Q :
  (forall w', advances w w' -> w_draws w' = w_draws w -> w_file w' = Some (tasks_to_json ts) ->
     w_stdin w' = w_stdin w -> Q tt w') ->
  wp (save ts) w Q.
Proof. intros HQ. unfold wp, save. destruct (w_writable w) eqn:Hw; [|done]. apply HQ; [world_solve|done..]. Qed.

(** [read_line] takes the next line off stdin. *)
Lemma wp_read_line_split w Q :
  (forall l w', terminal_only w w' -> split_line (w_stdin w) = (l, w_stdin w') -> Q l w') ->
  wp read_line w Q.
Proof.
  intros HQ. unfold wp, read_line. pose proof (length_split_line (w_stdin w)) as [H1 _].
  destruct (split_line (w_stdin w)) as [l r] eqn:E. apply HQ; [simpl in *; world_solve|done].
Qed.

End Primitives.

(** ** Computations that only write *)

Section Output.

Lemma output_only_bind {A B} (m : io A) (k : A -> io B) :
  output_only m -> (forall a, output_only (k a)) -> output_only (io_bind m k).
Proof.
  intros Hm Hk w Q HQ. apply wp_bind, Hm. intros a w1 H1 Hs1. apply Hk.
  intros b w2 H2 Hs2. apply HQ; [world_solve|congruence].
Qed.

Lemma output_only_ret {A} (a : A) : output_only (io_ret a).
Proof. intros w Q HQ. apply HQ; [apply terminal_only_refl|done]. Qed.

Lemma output_only_lift {A} (o : outcome A) : output_only (io_lift o).
Proof. intros w Q HQ. apply wp_lift. intros a _. apply HQ; [apply terminal_only_refl|done]. Qed.

Lemma output_only_print s : output_only (print s).
Proof. intros w Q HQ. apply HQ; [world_solve|done]. Qed.

Lemma output_only_put_line s : output_only (put_line s).
Proof. apply output_only_print. Qed.

End Output.

#[export] Hint Resolve output_only_ret output_only_lift output_only_print output_only_put_line : tw.

Ltac output_steps :=
  repeat first [apply output_only_bind; intros | solve [eauto with tw]].

Section OutputOps.

Lemma output_only_print_actions idx l : output_only (print_actions idx l).
Proof. revert idx. induction l; intros idx; simpl; output_steps. Qed.

Lemma output_only_print_choices ts idx l : output_only (print_choices ts idx l).
Proof. revert idx. induction l; intros idx; simpl; output_steps. Qed.

Lemma output_only_display_all ts l : output_only (display_all ts l).
Proof. induction l; simpl; output_steps. Qed.

End OutputOps.

(** ** [menu] and [select] *)

Section Selection.

Lemma find_enumerate_Some {A} (l : list A) idx sel k x :
  find_enumerate l idx sel = Some (k, x) -> idx <= k /\ l !! (k - idx) = Some x.
Proof.
  revert idx. induction l as [|y l IH]; intros idx; simpl; [done|].
  destruct (Z.eqb_spec (Z.of_nat idx) sel).
  - intros [= <- <-]. by rewrite Nat.sub_diag.
  - intros Hf. destruct (IH _ Hf) as [Hle Hk]. split; [lia|].
    by replace (k - idx) with (S (k - S idx)) by lia.
Qed.

Lemma find_enumerate_lookup {A} (l : list A) idx k :
  find_enumerate l idx (Z.of_nat (idx + k)) = pair (idx + k) <$> l !! k.
Proof.
  revert idx k. induction l as [|y l IH]; intros idx k; simpl; [done|].
  destruct k as [|k]; simpl.
  - by rewrite Nat.add_0_r, Z.eqb_refl.
  - rewrite (proj2 (Z.eqb_neq _ _)) by lia. replace (idx + S k) with (S idx + k) by lia. apply IH.
Qed.

Lemma find_enumerate_index {A} (l : list A) idx sel k x :
  find_enumerate l idx sel = Some (k, x) -> Z.of_nat k = sel.
Proof.
  revert idx. induction l as [|y l IH]; intros idx; simpl; [done|].
  destruct (Z.eqb_spec (Z.of_nat idx) sel); [by intros [= <- _]|apply IH].
Qed.

(** [input.trim().parse::<usize>().unwrap()] takes the next line. *)
Lemma wp_read_usize_split w Q :
  (forall n l w', terminal_only w w' -> split_line (w_stdin w) = (l, w_stdin w') ->
     parse_usize (trim l) = Some n -> Q n w') ->
  wp read_usize w Q.
Proof.
  intros HQ. apply wp_bind, wp_read_line_split. intros l w' Hw Hl. apply wp_lift. intros n Hn.
  destruct (parse_usize (trim l)) as [n'|] eqn:Hp; [|discriminate]. injection Hn as <-. by apply (HQ n' l).
Qed.

(** A line that selects an action is not empty: at end of input [menu]
    panics. *)
Lemma line_action_nonempty l a : line_action l = Some a -> l <> "".
Proof. by intros Ha ->. Qed.

(** [menu] reads one line and answers the action it selects. *)
Lemma wp_menu_split w Q :
  (forall a l w', terminal_only w w' -> split_line (w_stdin w) = (l, w_stdin w') ->
     line_action l = Some a -> Q a w') ->
  wp menu w Q.
Proof.
  intros HQ. apply wp_bind, output_only_print_actions. intros _ w1 H1 Hs1.
  apply wp_bind, wp_read_usize_split. intros n l w2 H2 Hl Hp. apply wp_ret.
  apply (HQ _ l); [world_solve|by rewrite <- Hs1|]. unfold line_action. by rewrite Hp.
Qed.

(** [select(..).unwrap()] reads one line: the slot it names, which holds
    a task, or a panic. *)
Lemma wp_select_split {B} ts (K : nat * Task -> io B) w Q :
  (forall j t w', terminal_only w w' -> take_index (w_stdin w) = Some (j, w_stdin w') ->
     ts !! j = Some t -> wp (K (j, t)) w' Q) ->
  wp (selected <- select ts ;; selection <- io_lift (unwrap selected) ;; K selection) w Q.
Proof.
  intros HQ. apply wp_bind. apply wp_bind, output_only_print_choices. intros _ w1 H1 Hs1.
  apply wp_bind, wp_read_usize_split. intros n l w2 H2 Hl Hp. apply wp_ret.
  apply wp_bind, wp_lift. intros [j t] Hu%unwrap_Ok.
  pose proof (find_enumerate_index _ _ _ _ _ Hu) as Hj.
  apply find_enumerate_Some in Hu as [_ Ht]. rewrite Nat.sub_0_r in Ht.
  apply HQ; [world_solve| |done]. unfold take_index, line_index. rewrite <- Hs1, Hl, Hp. simpl.
  by rewrite <- Hj, Nat2Z.id.
Qed.

(** [confirm] reads one line and answers [confirmed] of it. *)
Lemma wp_confirm_split w Q :
  (forall l w', terminal_only w w' -> split_line (w_stdin w) = (l, w_stdin w') -> Q (confirmed l) w') ->
  wp confirm w Q.
Proof.
  intros HQ. apply wp_bind, output_only_put_line. intros _ w1 H1 Hs1.
  apply wp_bind, wp_read_line_split. intros l w2 H2 Hl. apply wp_ret, HQ; [world_solve|by rewrite <- Hs1].
Qed.

(** [pause] reads one line. *)
Lemma wp_pause_split w Q :
  (forall w', terminal_only w w' -> w_stdin w' = snd (split_line (w_stdin w)) -> Q tt w') ->
  wp pause w Q.
Proof.
  intros HQ. apply wp_bind, output_only_put_line. intros _ w1 H1 Hs1.
  apply wp_bind, wp_read_line_split. intros l w2 H2 Hl. apply wp_ret, HQ; [world_solve|].
  by rewrite <- Hs1, Hl.
Qed.

End Selection.

(** ** The handlers refine the store's step relation *)

(** Go through one bind of a handler. *)
Ltac wp_next :=
  first [ apply wp_bind, output_only_put_line; intros _ ?w ?Hw ?Hs
        | apply wp_bind, wp_read_line_split; intros ?l ?w ?Hw ?Hl
        | apply wp_bind, wp_confirm_split; intros ?l ?w ?Hw ?Hl
        | apply wp_bind, wp_new_v4; intros ?w ?Hw _ ?Hd ?Hs
        | apply wp_select_split; intros ?j ?t ?w ?Hw ?Hj ?Ht
        | progress cbv zeta ].

(** Show that the lines a handler read are the ones [decode] reads:
    follow stdin back to the handler's first world. *)
Ltac decode_solve :=
  repeat match goal with H : w_stdin ?x = w_stdin ?y |- _ => rewrite H in *; clear H end;
  cbn [decode];
  repeat match goal with
  | H : split_line ?s = _ |- context [split_line ?s] => rewrite H; cbv iota beta
  | H : take_index ?s = _ |- context [take_index ?s] => rewrite H; cbv iota beta
  end;
  first [reflexivity | congruence].

Section Handlers.

Lemma fresh_draws_sub B ts ts' w w' :
  fresh_draws B ts w -> advances w w' -> ids ts' ⊆ ids ts -> fresh_draws B ts' w'.
Proof.
  intros Hf Hw Hsub. eapply fresh_draws_step; [done|world_solve|world_solve|]. set_solver.
Qed.

Lemma fresh_draws_snoc B ts ts' w w1 w' :
  fresh_draws B ts w -> ids ts' = (ids ts ++ [new_v4 (w_rng w1 (w_draws w1))])%list ->
  advances w w1 -> advances w1 w' -> w_draws w1 < w_draws w' -> fresh_draws B ts' w'.
Proof.
  intros Hf Hids Hw1 Hw' Hk. eapply fresh_draws_step; [done|world_solve|world_solve|].
  rewrite Hids. intros i [Hi|Hi]%elem_of_app; [by left|right].
  apply list_elem_of_singleton in Hi. exists (w_draws w1). split; [world_solve|].
  rewrite Hi. f_equal. world_solve.
Qed.

(** The draw [new_v4_io] takes in [w1], after [w], is fresh for the store. *)
Lemma fresh_draws_new B ts w w1 :
  fresh_draws B ts w -> advances w w1 -> w_draws w1 < B -> new_v4 (w_rng w1 (w_draws w1)) ∉ ids ts.
Proof. intros Hf Hw Hk. replace (w_rng w1) with (w_rng w) by world_solve. apply Hf. world_solve. Qed.

Lemma add_task_spec : handler_spec Add add_task.
Proof.
  intros ts w Q HQ. unfold add_task. repeat wp_next.
  apply wp_ret. eapply HQ; [world_solve|world_solve|decode_solve|]. intros B HB Hf. split.
  - eapply LAdd, (fresh_draws_new B ts w); [done|world_solve|world_solve].
  - eapply fresh_draws_snoc; [done|unfold ids; by rewrite fmap_app|world_solve..].
Qed.

Lemma add_subtask_spec : handler_spec AddSubtask add_subtask.
Proof.
  intros ts w Q HQ. unfold add_subtask. repeat wp_next.
  apply wp_ret. eapply HQ; [world_solve|world_solve|decode_solve|]. intros B HB Hf. split.
  - eapply LAddSubtask; [eassumption|].
    eapply (fresh_draws_new B ts w); [done|world_solve|world_solve].
  - eapply fresh_draws_snoc; [done|by rewrite ids_add_subtask|world_solve..].
Qed.

Lemma make_subtask_spec : handler_spec MakeSubtask make_subtask.
Proof.
  intros ts w Q HQ. unfold make_subtask. repeat wp_next.
  apply wp_ret. eapply HQ; [world_solve|world_solve|decode_solve|]. intros B HB Hf. split.
  - eapply LMakeSubtask; eassumption.
  - eapply fresh_draws_sub; [done|world_solve|]. by rewrite ids_make_subtask.
Qed.

Lemma toggle_task_spec : handler_spec Toggle toggle_task.
Proof.
  intros ts w Q HQ. unfold toggle_task. repeat wp_next.
  apply wp_bind, wp_lift. intros b Hc. destruct b; repeat wp_next;
    apply wp_ret; eapply HQ; [world_solve|world_solve|decode_solve| |world_solve|world_solve|decode_solve|];
    intros B HB Hf; split.
  - by eapply (LToggle ts j t true).
  - eapply fresh_draws_sub; [done|world_solve|]. by rewrite ids_mark_task_toggle.
  - by eapply (LToggle ts j t false).
  - eapply fresh_draws_sub; [done|world_solve|done].
Qed.

Lemma remove_task_spec : handler_spec Delete remove_task.
Proof.
  intros ts w Q HQ. unfold remove_task. repeat wp_next.
  destruct (confirmed l) eqn:Hy; repeat wp_next;
    apply wp_ret; apply (HQ (CDelete j (confirmed l))); [world_solve|world_solve|decode_solve| |world_solve|world_solve|decode_solve|];
    intros B HB Hf; rewrite Hy; split.
  - by apply (LDelete ts j t true).
  - eapply fresh_draws_sub; [done|world_solve|].
    rewrite remove_task_slot, ids_delete. apply list_subseteq_delete.
  - by apply (LDelete ts j t false).
  - eapply fresh_draws_sub; [done|world_solve|done].
Qed.

End Handlers.

(** ** One iteration and the loop *)

Section Loop.

Lemma fresh_draws_advance B ts w w' : fresh_draws B ts w -> advances w w' -> fresh_draws B ts w'.
Proof. intros Hf Hw. by eapply fresh_draws_sub. Qed.

Lemma wp_handler_save a h ts w Q :
  handler_spec a h ->
  (forall c ts' w', advances w w' -> w_draws w' <= S (w_draws w) ->
     decode a (w_stdin w) = Some (c, w_stdin w') ->
     (forall B, w_draws w < B -> fresh_draws B ts w -> lstep ts c ts' /\ fresh_draws B ts' w') ->
     Q (Some ts') w') ->
  wp (ts' <- h ts ;; save ts' ;;; io_ret (Some ts')) w Q.
Proof.
  intros Hh HQ. apply wp_bind, Hh. intros c ts' w1 H1 Hd1 Hdec Hs. apply wp_bind, wp_save.
  intros w2 H2 Hd2 _ Hs2. apply wp_ret. apply (HQ c); [world_solve|world_solve|by rewrite Hs2|].
  intros B HB Hf. destruct (Hs B HB Hf) as [Hst Hf1]. split; [done|]. by eapply fresh_draws_advance.
Qed.

(** One arm of [main]'s [match]: the handler reads the command [decode]
    reads and the store moves by its labelled step, at most one random
    draw is taken, and [Quit] leaves the document of the store in
    [tasks.json]. *)
Lemma run_action_spec a ts w Q :
  (forall r w', advances w w' -> w_draws w' <= S (w_draws w) ->
     match r with
     | Some ts' => exists c, decode a (w_stdin w) = Some (c, w_stdin w') /\
         (forall B, w_draws w < B -> fresh_draws B ts w -> lstep ts c ts' /\ fresh_draws B ts' w')
     | None => a = Quit /\ w_file w' = Some (tasks_to_json ts)
     end -> Q r w') ->
  wp (run_action a ts) w Q.
Proof.
  intros HQ. destruct a; cbn [run_action].
  - apply wp_ret, HQ; [world_solve|world_solve|]. exists CPick. split; [done|]. intros B _ Hf. split; [constructor|done].
  - apply (wp_handler_save Add); [apply add_task_spec|]. intros c ts' w' ????. apply HQ; eauto.
  - apply (wp_handler_save AddSubtask); [apply add_subtask_spec|]. intros c ts' w' ????. apply HQ; eauto.
  - apply (wp_handler_save MakeSubtask); [apply make_subtask_spec|]. intros c ts' w' ????. apply HQ; eauto.
  - apply (wp_handler_save Toggle); [apply toggle_task_spec|]. intros c ts' w' ????. apply HQ; eauto.
  - apply (wp_handler_save Delete); [apply remove_task_spec|]. intros c ts' w' ????. apply HQ; eauto.
  - apply wp_bind, output_only_display_all. intros _ w1 H1 Hs1. apply wp_bind, wp_pause_split. intros w2 H2 Hs2.
    apply wp_ret, HQ; [world_solve|world_solve|]. exists CDisplay. split; [by rewrite Hs2, Hs1|].
    intros B HB Hf. split; [constructor|]. eapply fresh_draws_advance; [done|world_solve].
  - apply wp_bind, wp_save. intros w1 H1 Hd Hfile _. apply wp_ret, HQ; [done|lia|done].
Qed.

Lemma script_S f s l r a c r' :
  split_line s = (l, r) -> line_action l = Some a -> decode a r = Some (c, r') ->
  script (S f) s = cons c <$> script f r'.
Proof. intros Hs Ha Hd. cbn [script]. rewrite Hs, Ha. destruct a; try discriminate; by rewrite Hd. Qed.

Lemma script_quit f s l r :
  split_line s = (l, r) -> line_action l = Some Quit -> script (S f) s = Some [].
Proof. intros Hs Ha. cbn [script]. by rewrite Hs, Ha. Qed.

(** When the loop returns through [Quit], the menu lines and the lines
    the handlers read decode to a script of commands, and [tasks.json]
    holds the document of the store those commands lead to, step by
    labelled step, from the loop's initial store. *)
Lemma main_loop_spec fuel B ts w :
  w_draws w + fuel <= B -> fresh_draws B ts w ->
  wp (main_loop fuel ts) w
    (fun quit w' => quit = true -> exists cs ts',
       script fuel (w_stdin w) = Some cs /\ lsteps ts cs ts' /\ w_file w' = Some (tasks_to_json ts')).
Proof.
  revert ts w. induction fuel as [|f IH]; intros ts w HB Hf; cbn [main_loop]; [by apply wp_ret|].
  apply wp_bind, wp_menu_split. intros a l w1 H1 Hl Ha.
  assert (Hf1 : fresh_draws B ts w1) by (eapply fresh_draws_advance; [done|auto with tw]).
  apply wp_bind, run_action_spec. intros [ts'|] w2 H2 Hd2 Hr.
  - destruct Hr as (c & Hdec & Hs). destruct (Hs B ltac:(world_solve) Hf1) as [Hst Hf2].
    eapply wp_mono; [apply IH; [world_solve|done]|].
    intros b w' Hb Hbt. destruct (Hb Hbt) as (cs & ts'' & Hscr & Hst' & Hfile).
    exists (c :: cs), ts''. split_and!; [|by econstructor|done].
    by rewrite (script_S f _ _ _ _ _ _ Hl Ha Hdec), Hscr.
  - destruct Hr as [-> Hfile]. apply wp_ret. intros _.
    exists [], ts. split_and!; [by eapply script_quit|constructor|done].
Qed.

Lemma main_loop_ends fuel ts w :
  String.length (w_stdin w) < fuel -> wp (main_loop fuel ts) w (fun quit _ => quit = true).
Proof.
  revert ts w. induction fuel as [|f IH]; intros ts w Hlen; simpl; [lia|].
  apply wp_bind, wp_menu_split. intros a l w1 H1 Hl Ha.
  assert (Hlt : String.length (w_stdin w1) < String.length (w_stdin w)).
  { pose proof (length_split_line (w_stdin w)) as [_ Hsp]. rewrite Hl in Hsp. apply Hsp.
    by apply (line_action_nonempty l a). }
  apply wp_bind, run_action_spec. intros [ts'|] w2 H2 _ _; [|by apply wp_ret].
  apply IH. world_solve.
Qed.

Lemma io_bind_Ok {A B} (m : io A) (k : A -> io B) w a w' :
  m w = (Ok a, w') -> io_bind m k w = k a w'.
Proof. unfold io_bind. by intros ->. Qed.

Lemma wp_fst {A} (m : io A) w (P : A -> Prop) :
  wp m w (fun a _ => P a) -> forall a, fst (m w) = Ok a -> P a.
Proof. unfold wp. destruct (m w) as [[b|p] w']; simpl; intros Hp a; [by intros [= <-]|done]. Qed.

End Loop.

(** ** [usize] text: [Display] and [parse] *)

Section Decimal.
#[local] Arguments String.append : simpl nomatch.

Lemma decimal_go_app f n acc : decimal_go f n acc = decimal_go f n "" ++ acc.
Proof.
  revert n acc. induction f as [|f IH]; intros n acc; cbn [decimal_go]; [done|].
  destruct (Nat.ltb n 10); [done|]. rewrite IH, (IH _ (String _ "")), string_app_assoc. done.
Qed.

Lemma decimal_go_fuel f f' n acc : n < f -> n < f' -> decimal_go f n acc = decimal_go f' n acc.
Proof.
  revert f' n acc. induction f as [|f IH]; intros [|f'] n acc Hf Hf'; cbn [decimal_go]; try lia.
  destruct (Nat.ltb_spec n 10); [done|].
  assert (n / 10 < n) by (apply Nat.div_lt; lia). apply IH; lia.
Qed.

Lemma usize_to_string_step n :
  10 <= n -> usize_to_string n = usize_to_string (n / 10) ++ String (digit_char (n mod 10)) "".
Proof.
  intros Hn. unfold usize_to_string at 1. cbn [decimal_go]. destruct (Nat.ltb_spec n 10); [lia|].
  rewrite decimal_go_app. f_equal. assert (n / 10 < n) by (apply Nat.div_lt; lia).
  apply decimal_go_fuel; lia.
Qed.

Lemma usize_to_string_small n : n < 10 -> usize_to_string n = String (digit_char n) "".
Proof.
  intros Hn. unfold usize_to_string. cbn [decimal_go]. rewrite Nat.mod_small by done.
  by destruct (Nat.ltb_spec n 10); [|lia].
Qed.

Lemma digit_char_digit d : d < 10 -> is_digit (digit_char d) = true /\ digit_val (digit_char d) = Z.of_nat d.
Proof. intros Hd. do 10 (destruct d as [|d]; [split; reflexivity|]). lia. Qed.

Lemma all_digits_app a b : all_digits (a ++ b) = all_digits a && all_digits b.
Proof. induction a as [|c a IH]; [done|]. simpl. rewrite IH. apply andb_assoc. Qed.

Lemma usize_to_string_digits n : all_digits (usize_to_string n) = true /\ usize_to_string n <> "".
Proof.
  induction n as [n IH] using lt_wf_ind. destruct (Nat.ltb_spec n 10).
  - rewrite usize_to_string_small by done. cbn [all_digits].
    by rewrite (proj1 (digit_char_digit n ltac:(lia))).
  - rewrite usize_to_string_step by done. rewrite all_digits_app.
    destruct (IH (n / 10)) as [Hd Hne]; [apply Nat.div_lt; lia|].
    rewrite Hd. cbn [all_digits]. rewrite (proj1 (digit_char_digit (n mod 10) ltac:(apply Nat.mod_upper_bound; lia))).
    split; [done|]. destruct (usize_to_string (n / 10)); [done|discriminate].
Qed.

Lemma parse_digits_app a b acc :
  parse_digits (a ++ b) acc = match parse_digits a acc with Some v => parse_digits b v | None => None end.
Proof.
  revert acc. induction a as [|c a IH]; intros acc; [done|]. simpl.
  destruct (is_digit c); [|done]. destruct (Z.leb _ _); [apply IH|done].
Qed.

Lemma parse_digits_usize_to_string n :
  (Z.of_nat n <= usize_max)%Z -> parse_digits (usize_to_string n) 0 = Some (Z.of_nat n).
Proof.
  induction n as [n IH] using lt_wf_ind. intros Hmax. destruct (Nat.ltb_spec n 10).
  - rewrite usize_to_string_small by done. destruct (digit_char_digit n) as [Hd Hv]; [done|].
    cbn [parse_digits]. rewrite Hd, Hv. rewrite (proj2 (Z.leb_le _ _)) by lia. done.
  - rewrite usize_to_string_step, parse_digits_app by done.
    rewrite IH; [|apply Nat.div_lt; lia|]; [|rewrite Nat2Z.inj_div; apply Z.le_trans with (Z.of_nat n); [apply Z.div_le_upper_bound; lia|done]].
    destruct (digit_char_digit (n mod 10)) as [Hd Hv]; [apply Nat.mod_upper_bound; lia|].
    cbn [parse_digits]. rewrite Hd, Hv.
    assert (Heq : (Z.of_nat (n / 10) * 10 + Z.of_nat (n mod 10))%Z = Z.of_nat n).
    { rewrite (Nat.div_mod_eq n 10) at 3. lia. }
    rewrite Heq, (proj2 (Z.leb_le _ _)) by done. done.
Qed.

(** [usize::from_str] reads a string of digits with its digit loop. *)
Lemma parse_usize_digits s : all_digits s = true -> s <> "" -> parse_usize s = parse_digits s 0.
Proof.
  destruct s as [|c s]; [done|]. intros Hd _. simpl in Hd.
  destruct c as [[] [] [] [] [] [] [] []]; first [reflexivity | discriminate Hd].
Qed.

Lemma trim_end_snoc_ws s c : is_whitespace c = true -> trim_end (s ++ String c "") = trim_end s.
Proof. intros Hc. induction s as [|c' s IH]; simpl; [by rewrite Hc|]. by rewrite IH. Qed.

Lemma digit_not_whitespace c : is_digit c = true -> is_whitespace c = false.
Proof.
  unfold is_digit, is_whitespace. cbv zeta. intros [H1 H2]%andb_prop. apply Nat.leb_le in H1, H2.
  rewrite (proj2 (Nat.leb_gt _ 13)), (proj2 (Nat.eqb_neq _ 32)) by lia. by rewrite andb_false_r.
Qed.

Lemma trim_end_digits s : all_digits s = true -> trim_end s = s.
Proof.
  induction s as [|c s IH]; [done|]. simpl. intros [Hc Hs]%andb_prop. rewrite IH by done.
  destruct s; [|done]. by rewrite digit_not_whitespace.
Qed.

(** The line of an index typed at the prompt is read back as that index. *)
Lemma trim_digits_line s : all_digits s = true -> s <> "" -> trim (s ++ String line_feed "") = s.
Proof.
  intros Hd Hne. unfold trim. destruct s as [|c s']; [done|].
  simpl in Hd. apply andb_prop in Hd as [Hc Hs].
  simpl. rewrite digit_not_whitespace by done.
  change (trim_end ((String c s') ++ String line_feed "") = String c s').
  rewrite trim_end_snoc_ws by reflexivity. apply trim_end_digits. simpl. by rewrite Hc, Hs.
Qed.

Lemma split_line_digits s rest :
  all_digits s = true -> split_line (s ++ String line_feed rest) = (s ++ String line_feed "", rest).
Proof.
  induction s as [|c s IH]; [done|]. simpl. intros [Hc Hs]%andb_prop.
  assert (Ascii.eqb c line_feed = false) as ->.
  { apply Ascii.eqb_neq. intros ->. discriminate Hc. }
  by rewrite IH.
Qed.

End Decimal.

(** ** Choosing a task by its index *)

Section ByIndex.

Lemma display_Ok ts t : t ∈ ts -> exists out, Tasks.display ts (id t) = Ok out.
Proof.
  intros Ht. unfold Tasks.display. destruct (Tasks.get_from_id ts (id t)) eqn:E; [by eexists|].
  apply get_from_id_None in E. contradict E. by apply list_elem_of_fmap_2.
Qed.

(** Listing the tasks only writes to stdout. *)
Lemma print_choices_Ok ts idx l w :
  l ⊆ ts -> exists out, print_choices ts idx l w = (Ok tt, with_stdout out w).
Proof.
  revert idx w. induction l as [|t l IH]; intros idx w Hl; [by exists (w_stdout w); destruct w|].
  destruct (display_Ok ts t) as [s Hs]; [set_solver|].
  cbn [print_choices]. erewrite (io_bind_Ok _ _ _ tt) by reflexivity.
  erewrite (io_bind_Ok _ _ _ s) by (unfold io_lift; by rewrite Hs).
  erewrite (io_bind_Ok _ _ _ tt) by reflexivity.
  match goal with |- context [print_choices ts (S idx) l ?w'] => destruct (IH (S idx) w') as [out ->] end; [set_solver|].
  by exists out.
Qed.

Lemma read_usize_index k rest w :
  (Z.of_nat k <= usize_max)%Z -> w_stdin w = usize_to_string k ++ String line_feed rest ->
  read_usize w = (Ok (Z.of_nat k), with_stdin rest w).
Proof.
  intros Hk Hin. destruct (usize_to_string_digits k) as [Hd Hne].
  unfold read_usize, io_bind, read_line. rewrite Hin, split_line_digits by done. simpl.
  rewrite trim_digits_line, parse_usize_digits, parse_digits_usize_to_string by done. done.
Qed.

(** Typing the index [k] that [select] printed selects the task at slot [k]. *)
Lemma select_index ts k t rest w :
  ts !! k = Some t -> (Z.of_nat k <= usize_max)%Z -> w_stdin w = usize_to_string k ++ String line_feed rest ->
  exists out, select ts w = (Ok (Some (k, t)), with_stdin rest (with_stdout out w)).
Proof.
  intros Hk Hmax Hin. destruct (print_choices_Ok ts 0 ts w) as [out Hout]; [done|].
  exists out. unfold select, io_bind at 1. rewrite Hout.
  unfold io_bind. rewrite (read_usize_index k rest) by done.
  unfold io_ret. pose proof (find_enumerate_lookup ts 0 k) as Hf. simpl in Hf. rewrite Hf, Hk. done.
Qed.

End ByIndex.

(** ** [main] *)

Section Main.

Lemma fresh_draws_b_spec B ts w : fresh_draws_b B ts w = true -> fresh_draws B ts w.
Proof.
  unfold fresh_draws_b. rewrite forallb_forall. intros Hall k Hk.
  specialize (Hall k). rewrite in_seq in Hall. apply andb_prop in Hall as [H1 H2]; [|lia].
  apply bool_decide_eq_true in H1. rewrite forallb_forall in H2. split; [done|].
  intros k' Hk'. apply (bool_decide_eq_true_1 _), H2, in_seq. lia.
Qed.

Lemma wp_elim {A} (m : io A) w Q a w' : wp m w Q -> m w = (Ok a, w') -> Q a w'.
Proof. unfold wp. intros HQ Hm. by rewrite Hm in HQ. Qed.

Lemma wp_load w Q :
  (forall w', w_stdin w' = w_stdin w -> advances w w' -> w_draws w' = w_draws w ->
     Q (match w_file w with Some c => unwrap_or [] (tasks_from_json c) | None => [] end) w') ->
  wp load w Q.
Proof.
  intros HQ. unfold wp, load. destruct (w_file w); [apply HQ; world_solve|].
  destruct (w_writable w); [apply HQ; world_solve|done].
Qed.

(** [main] loads the store and runs the loop on it. *)
Lemma main_spec fuel B w c :
  w_file w = Some c -> w_draws w + fuel <= B ->
  fresh_draws B (unwrap_or [] (tasks_from_json c)) w ->
  wp (main fuel) w (fun quit w' => quit = true -> exists cs ts',
    script fuel (w_stdin w) = Some cs /\ lsteps (unwrap_or [] (tasks_from_json c)) cs ts' /\
    w_file w' = Some (tasks_to_json ts')).
Proof.
  intros Hc HB Hf. unfold main. apply wp_bind, wp_load. intros w1 Hin H1 Hd. rewrite Hc, <- Hin.
  apply (main_loop_spec fuel B); [lia|]. by eapply fresh_draws_advance.
Qed.

End Main.

Section Texts.

Lemma print_actions_Ok idx l w : exists out, print_actions idx l w = (Ok tt, with_stdout out w).
Proof.
  revert idx w. induction l as [|a l IH]; intros idx w; [by exists (w_stdout w); destruct w|].
  cbn [print_actions]. erewrite (io_bind_Ok _ _ _ tt) by reflexivity.
  match goal with |- context [print_actions (S idx) l ?w'] => destruct (IH (S idx) w') as [out ->] end.
  by exists out.
Qed.

Lemma parse_digits_range s acc n :
  (0 <= acc <= usize_max)%Z -> parse_digits s acc = Some n -> (0 <= n <= usize_max)%Z.
Proof.
  revert acc. induction s as [|c s IH]; intros acc Hacc; simpl; [by intros [= <-]|].
  destruct (is_digit c) eqn:Hc; [|done]. destruct (Z.leb_spec (acc * 10 + digit_val c) usize_max); [|done].
  apply IH. unfold is_digit in Hc. apply andb_prop in Hc as [H1%Nat.leb_le _].
  unfold digit_val in *. lia.
Qed.

Lemma parse_usize_not_plus c s : c <> "+"%char -> parse_usize (String c s) = parse_digits (String c s) 0.
Proof. intros Hc. destruct c as [[] [] [] [] [] [] [] []]; first [reflexivity | by contradict Hc]. Qed.

Lemma parse_usize_range s n : parse_usize s = Some n -> (0 <= n <= usize_max)%Z.
Proof.
  destruct s as [|c s]; [done|]. destruct (ascii_dec c "+") as [->|Hc].
  - destruct s; [done|]. apply parse_digits_range. unfold usize_max. lia.
  - rewrite parse_usize_not_plus by done. apply parse_digits_range. unfold usize_max. lia.
Qed.

End Texts.

(** ** Properties *)

(** C3: Refinement of the whole program.  If [tasks.json] parses to a
    store [ts] and the random draws the run can take give fresh, distinct
    ids, then whenever [main] returns through [Quit], the lines typed on
    stdin decode ([script]) to the sequence of store commands the
    handlers asked for, in order, and [tasks.json] holds the document of
    the store that sequence of labelled store steps leads to from [ts]:
    each iteration changed the store exactly as its command says (the
    first selection of [make_subtask] linked under the second, the
    selected task toggled when its gate passed, the selected slot deleted
    when confirmed). *)
Theorem main_refines fuel B w c ts w' :
  w_file w = Some c -> tasks_from_json c = Some ts ->
  w_draws w + fuel <= B -> fresh_draws B ts w ->
  main fuel w = (Ok true, w') ->
  exists cs ts', script fuel (w_stdin w) = Some cs /\ lsteps ts cs ts' /\
    w_file w' = Some (tasks_to_json ts').
Proof.
  intros Hc Hts HB Hf Hrun.
  assert (Hf' : fresh_draws B (unwrap_or [] (tasks_from_json c)) w) by by rewrite Hts.
  pose proof (wp_elim _ _ _ _ _ (main_spec fuel B w c Hc HB Hf') Hrun) as Hq.
  rewrite Hts in Hq. by apply Hq.
Qed.

Lemma main_refines_witness :
  exists cs ts', script 7 scenario_input = Some cs /\ lsteps [] cs ts' /\
    w_file (snd (main 7 (sample_world scenario_input (Some "[]")))) = Some (tasks_to_json ts').
Proof.
  apply (main_refines 7 7 (sample_world scenario_input (Some "[]")) "[]" []).
  - reflexivity.
  - vm_compute. reflexivity.
  - simpl. lia.
  - apply fresh_draws_b_spec. vm_compute. reflexivity.
  - vm_compute. reflexivity.
Defined.

(** C11: A corrupt [tasks.json] is lost.  [load] answers the empty store
    for a file that does not parse and leaves the file as it is; a run
    that then quits at once returns normally and overwrites the file
    with the document of the empty store: the tasks the old file held
    are gone. *)
Theorem corrupt_file_replaced w c fuel rest :
  w_file w = Some c -> tasks_from_json c = None -> w_writable w = true -> 0 < fuel ->
  load w = (Ok [], w) /\
  exists w', main fuel (with_stdin ("7" ++ String line_feed rest) w) = (Ok true, w') /\
    w_file w' = Some (tasks_to_json []).
Proof.
  intros Hc Hts Hw Hfuel. split; [unfold load; by rewrite Hc, Hts|].
  destruct fuel as [|f]; [lia|]. unfold main. erewrite io_bind_Ok by (unfold load; cbn; by rewrite Hc, Hts).
  cbn [main_loop]. destruct (print_actions_Ok 0 actions (with_stdin ("7" ++ String line_feed rest) w)) as [out Hout].
  unfold menu. rewrite (io_bind_Ok _ _ _ _ _ (io_bind_Ok _ _ _ _ _ Hout)).
  destruct w as [i o fl wr rng dr]. cbn in Hw. subst wr.
  eexists. split; [unfold io_bind, save; cbn; reflexivity|reflexivity].
Qed.

Lemma corrupt_file_replaced_witness :
  load (sample_world "" (Some "{")) = (Ok [], sample_world "" (Some "{")) /\
  exists w', main 1 (with_stdin ("7" ++ String line_feed "") (sample_world "" (Some "{"))) = (Ok true, w') /\
    w_file w' = Some (tasks_to_json []).
Proof.
  apply (corrupt_file_replaced (sample_world "" (Some "{")) "{"); [reflexivity|vm_compute; reflexivity|reflexivity|lia].
Defined.

(** C13: Termination.  With more loop iterations than bytes on stdin,
    [main] never runs out of fuel: it returns through [Quit] or panics
    (at the latest when [read_line] hits the end of input and [parse]
    fails). *)
Theorem main_terminates fuel w : String.length (w_stdin w) < fuel -> fst (main fuel w) <> Ok false.
Proof.
  intros Hlen Hm. assert (Hw : wp (main fuel) w (fun quit _ => quit = true)).
  { unfold main. apply wp_bind, wp_load. intros w1 Hin _ _. apply main_loop_ends. by rewrite Hin. }
  by pose proof (wp_fst _ _ _ Hw false Hm).
Qed.

Lemma main_terminates_witness : fst (main 200 (sample_world scenario_input None)) <> Ok false.
Proof. apply main_terminates. apply Nat.ltb_lt. vm_compute. reflexivity. Defined.

(** C10: Round trip of the Persistence Adapter: after [save ts] succeeds,
    [load] returns [ts] (ids in range, as [Uuid::new_v4] makes them). *)
Theorem save_load_roundtrip ts w :
  Forall valid ts -> w_writable w = true -> fst ((save ts ;;; load) w) = Ok ts.
Proof.
  intros Hv Hw. unfold io_bind, save, load. rewrite Hw. cbn [w_file with_file fst].
  by rewrite tasks_json_roundtrip.
Qed.

Lemma save_load_roundtrip_witness :
  fst ((save sample_ab ;;; load) (sample_world "" None)) = Ok sample_ab.
Proof.
  apply save_load_roundtrip; [|reflexivity].
  repeat constructor; unfold valid, Uuid_valid, uuid_wf; simpl; lia.
Defined.

(** C12: [load] without a [tasks.json]: it creates an empty file and
    answers the empty store (the empty file, which does not parse, is
    read as the empty store again); when the file cannot be created it
    panics with [expect]'s message. *)
Theorem load_missing_file w :
  w_file w = None ->
  (w_writable w = true -> load w = (Ok [], with_file (Some "") w) /\ fst (load (with_file (Some "") w)) = Ok []) /\
  (w_writable w = false -> fst (load w) = Panic (ExpectFailed "Could not create task file")).
Proof. intros Hf. unfold load. rewrite Hf. split; intros ->; [split|]; reflexivity. Qed.

Lemma load_missing_file_witness :
  load (sample_world "" None) = (Ok [], with_file (Some "") (sample_world "" None)).
Proof. apply (load_missing_file (sample_world "" None)); reflexivity. Defined.


(** C6: [toggle_task] on the task whose index is typed: it flips the
    status exactly when [check_if_subtasks_done] answers [true], leaves
    the store unchanged when it answers [false], and panics when it
    panics.  The answer does not depend on the task's status: a [Done]
    task whose subtasks are not all [Done] cannot be set back to
    [Todo]. *)
Theorem toggle_task_selected ts k t rest w :
  ts !! k = Some t -> (Z.of_nat k <= usize_max)%Z ->
  w_stdin w = usize_to_string k ++ String line_feed rest ->
  fst (toggle_task ts w) =
    match Tasks.check_if_subtasks_done ts (id t) with
    | Ok true => Ok (Tasks.mark_task_toggle ts (id t))
    | Ok false => Ok ts
    | Panic p => Panic p
    end.
Proof.
  intros Hk Hmax Hin. unfold toggle_task. erewrite (io_bind_Ok _ _ _ tt) by reflexivity.
  destruct (select_index ts k t rest (with_stdout (w_stdout w ++ println "Select task to toggle status of: ") w))
    as [out Hsel]; [done|done|done|].
  erewrite (io_bind_Ok _ _ _ (Some (k, t))) by exact Hsel.
  cbn [io_bind io_lift unwrap].
  cbn [snd]. by destruct (Tasks.check_if_subtasks_done ts (id t)) as [[]|p].
Qed.

Lemma toggle_task_selected_witness :
  fst (toggle_task sample_reopen (sample_world (lines ["0"]) None)) = Ok sample_reopen.
Proof.
  rewrite (toggle_task_selected sample_reopen 0
    (mkTask (Uuid_from_u128 1) "Write spec" "draft v1" Done [Uuid_from_u128 2]) "");
    [vm_compute; reflexivity|reflexivity|vm_compute; discriminate|reflexivity].
Defined.

(** C14: [menu] on every input line: a line that does not parse as a
    [usize] aborts the process ([parse::<usize>().unwrap()]); an index
    below 8 selects that [Action]; a larger one is [PickAction]. *)
Theorem menu_spec w :
  fst (menu w) =
    match parse_usize (trim (fst (split_line (w_stdin w)))) with
    | None => Panic ParseIntFailed
    | Some n => Ok (default PickAction (actions !! Z.to_nat n))
    end.
Proof.
  destruct (print_actions_Ok 0 actions w) as [out Hout].
  unfold menu. rewrite (io_bind_Ok _ _ _ _ _ Hout).
  unfold read_usize, io_bind at 1 2, read_line. cbn [w_stdin with_stdout].
  destruct (split_line (w_stdin w)) as [l r]. cbn [fst io_bind io_lift unwrap_parse].
  destruct (parse_usize (trim l)) as [n|] eqn:Hp; [|reflexivity].
  apply parse_usize_range in Hp. cbn [io_lift unwrap_parse io_ret fst].
  replace (find_enumerate actions 0 n) with (find_enumerate actions 0 (Z.of_nat (0 + Z.to_nat n))) by (f_equal; lia).
  rewrite find_enumerate_lookup. by destruct (actions !! Z.to_nat n).
Qed.

Lemma menu_spec_witness : fst (menu (sample_world (lines ["x"]) None)) = Panic ParseIntFailed.
Proof. rewrite menu_spec. reflexivity. Defined.

(** C20: The task [add_task] appends is [Todo], has no subtasks, and its id,
    made by [Uuid::new_v4] from 16 random bytes, is a 128-bit value of
    version 4 and of the RFC 4122 variant. *)
Theorem add_task_new_id ts w ts' w' :
  length (w_rng w (w_draws w)) = 16 -> Forall byte_wf (w_rng w (w_draws w)) ->
  add_task ts w = (Ok ts', w') ->
  exists t, ts' = (ts ++ [t])%list /\ status t = Todo /\ subtasks t = [] /\
    uuid_wf (id t) /\ get_version_num (id t) = version_random /\ get_variant (id t) = RFC4122.
Proof.
  intros Hlen Hb Hrun. pattern ts', w'. refine (wp_elim _ _ _ _ _ _ Hrun). unfold add_task. repeat wp_next.
  apply wp_ret. eexists. split_and!; [reflexivity|reflexivity|reflexivity|..];
    replace (w_draws _) with (w_draws w) by world_solve; replace (w_rng _) with (w_rng w) by world_solve;
    apply new_v4_spec; done.
Qed.

Lemma add_task_new_id_witness :
  exists t, fst (add_task [] (sample_world (lines ["n"; "d"]) None)) = Ok [t] /\
    get_version_num (id t) = version_random.
Proof.
  set (run := add_task [] (sample_world (lines ["n"; "d"]) None)).
  set (added := match fst run with Ok l => l | Panic _ => [] end).
  assert (Hrun : run = (Ok added, snd run)) by (vm_compute; reflexivity).
  destruct (add_task_new_id [] (sample_world (lines ["n"; "d"]) None) added (snd run)) as (t & Hts & _ & _ & _ & Hv & _).
  - reflexivity.
  - cbv [sample_world w_rng w_draws sample_rng]. simpl. repeat constructor; unfold byte_wf; lia.
  - exact Hrun.
  - exists t. split; [|done]. rewrite Hrun, Hts. reflexivity.
Defined.

(** ** Selections and confirmations typed at the prompts *)

Section Typed.

Lemma put_line_then {A} s (m : io A) w :
  fst ((put_line s ;;; m) w) = fst (m (with_stdout (w_stdout w ++ println s) w)).
Proof. reflexivity. Qed.

Lemma split_line_no_lf s rest :
  no_line_feed s = true -> split_line (s ++ String line_feed rest) = (s ++ String line_feed "", rest).
Proof.
  induction s as [|c s IH]; [done|]. simpl. intros [Hc Hs]%andb_prop.
  apply negb_true_iff in Hc. rewrite Hc. by rewrite IH.
Qed.

(** Typing an index past the end of the list makes [select] answer [None]. *)
Lemma select_index_none ts k rest w :
  length ts <= k -> (Z.of_nat k <= usize_max)%Z -> w_stdin w = usize_to_string k ++ String line_feed rest ->
  exists out, select ts w = (Ok None, with_stdin rest (with_stdout out w)).
Proof.
  intros Hk Hmax Hin. destruct (print_choices_Ok ts 0 ts w) as [out Hout]; [done|].
  exists out. unfold select, io_bind at 1. rewrite Hout.
  unfold io_bind. rewrite (read_usize_index k rest) by done.
  unfold io_ret. pose proof (find_enumerate_lookup ts 0 k) as Hf. simpl in Hf.
  rewrite Hf, lookup_ge_None_2 by done. done.
Qed.

Lemma select_unwrap_none {B} ts (K : nat * Task -> io B) w :
  (exists w', select ts w = (Ok None, w')) ->
  fst ((selected <- select ts ;; selection <- io_lift (unwrap selected) ;; K selection) w) = Panic UnwrapNone.
Proof. intros [w' Hs]. unfold io_bind at 1. by rewrite Hs. Qed.

(** [confirm] answers whether the trimmed line starts with ['y']. *)
Lemma confirm_line ans rest w :
  no_line_feed ans = true -> w_stdin w = ans ++ String line_feed rest ->
  exists w', confirm w =
    (Ok (Ascii.eqb (unwrap_or "n"%char (first_char (trim (ans ++ String line_feed "")))) "y"%char), w').
Proof.
  intros Hans Hin. eexists. unfold confirm, io_bind, put_line, print, read_line. simpl.
  rewrite Hin, split_line_no_lf by done. reflexivity.
Qed.

End Typed.


(** C15: Typing an index past the end of the list at the first [select]
    of a handler aborts the process: [add_subtask], [make_subtask],
    [toggle_task] and [remove_task] all call [select(..).unwrap()] on
    [None]. *)
Theorem select_out_of_range_panics ts k rest w :
  length ts <= k -> (Z.of_nat k <= usize_max)%Z ->
  w_stdin w = usize_to_string k ++ String line_feed rest ->
  fst (add_subtask ts w) = Panic UnwrapNone /\ fst (make_subtask ts w) = Panic UnwrapNone /\
  fst (toggle_task ts w) = Panic UnwrapNone /\ fst (remove_task ts w) = Panic UnwrapNone.
Proof.
  intros Hk Hmax Hin.
  assert (Hsel : forall w', w_stdin w' = w_stdin w -> exists w'', select ts w' = (Ok None, w'')).
  { intros w' Hw'. rewrite Hin in Hw'. destruct (select_index_none ts k rest w') as [out Hs]; eauto. }
  split_and!; [unfold add_subtask|unfold make_subtask|unfold toggle_task|unfold remove_task];
    rewrite ?put_line_then; apply select_unwrap_none, Hsel; reflexivity.
Qed.

Lemma select_out_of_range_panics_witness :
  fst (toggle_task sample_ab (sample_world (lines ["2"]) None)) = Panic UnwrapNone.
Proof. apply (select_out_of_range_panics sample_ab 2 ""); [simpl; lia|unfold usize_max; lia|reflexivity]. Defined.

(** C7: [remove_task] with the index [k] of a task and an answer line:
    when the trimmed answer starts with ['y'] the store loses exactly the
    slot [k] (the other tasks' subtask lists are left as they were);
    any other answer leaves the store unchanged. *)
Theorem remove_task_selected ts k t ans rest w :
  ts !! k = Some t -> (Z.of_nat k <= usize_max)%Z -> no_line_feed ans = true ->
  w_stdin w = usize_to_string k ++ String line_feed (ans ++ String line_feed rest) ->
  fst (remove_task ts w) =
    Ok (if Ascii.eqb (unwrap_or "n"%char (first_char (trim (ans ++ String line_feed "")))) "y"%char
        then delete k ts else ts).
Proof.
  intros Hk Hmax Hans Hin. unfold remove_task.
  destruct (select_index ts k t _ w Hk Hmax Hin) as [out Hs].
  erewrite (io_bind_Ok _ _ _ (Some (k, t))) by exact Hs. cbn [io_bind io_lift unwrap].
  erewrite (io_bind_Ok _ _ _ tt) by reflexivity.
  destruct (confirm_line ans rest (with_stdout (w_stdout (with_stdin (ans ++ String line_feed rest) (with_stdout out w)) ++
      println "Are you sure you wish to delete? ") (with_stdin (ans ++ String line_feed rest) (with_stdout out w))))
    as [w' Hc]; [done|reflexivity|].
  erewrite (io_bind_Ok _ _ _ _ _ Hc).
  destruct (Ascii.eqb _ _); [|reflexivity]. simpl. by rewrite remove_task_slot.
Qed.

Lemma remove_task_selected_witness :
  fst (remove_task sample_ab (sample_world (lines ["1"; "y"]) None)) = Ok (delete 1 sample_ab).
Proof.
  rewrite (remove_task_selected sample_ab 1 task_b "y" "");
    [reflexivity|reflexivity|unfold usize_max; lia|reflexivity|reflexivity].
Defined.
